(** * poropyck: picking arrival times by dynamic time warping

    A shallow embedding of [poropyck/pick_dtw.py]: the [Signal] class (window
    bounds, normalised window extraction, time picks, the elastic-property
    formulas), the event handlers of the [Poropyck] class that change the
    two signals, and the construction of the two signals in [main].  The
    [dtw] function and the Hilbert transform come from outside the file:
    the handlers take them as parameters, and module [Dtw] models the
    alignment engine the way the specification describes it.

    Numbers.  The Python code is duck-typed: the same arithmetic runs on
    floats, on numpy scalars and on the objects of the Monte Carlo library.
    The embedding is therefore written over an interface of arithmetic
    operations ([Ops], [Num], [Root], [Pow]), with two instances: IEEE
    binary64 ([PrimFloat], what Python computes with) and the exact
    rationals ([Qc]).  The power [x ** n] is the platform's [pow]: it has
    an exact instance and none on doubles, where its rounding is not the
    multiplication's.

    Plotting.  The figure and the axes are left out.  The plotting methods
    that end [run_dtw] and [onpick] compute from the object and may raise;
    the handlers take them as parameters.  The drawing calls of the other
    handlers ([Signal.plot], [clear_output_axes], [draw_idle]) are left
    out. *)

From Stdlib Require Import ZArith List Bool Lia PeanoNat Sorted.
From Stdlib Require Import QArith Qcanon Qcabs.
From Stdlib Require Import Floats.
Import ListNotations.

Set Implicit Arguments.

(** ** The arithmetic interface *)

Declare Scope num_scope.
Delimit Scope num_scope with num.

(** Python's overloaded operators [+ - * /]. *)
Class Ops (A : Type) : Type := {
  add : A -> A -> A;
  sub : A -> A -> A;
  mul : A -> A -> A;
  div : A -> A -> A
}.

Infix "+" := add : num_scope.
Infix "-" := sub : num_scope.
Infix "*" := mul : num_scope.
Infix "/" := div : num_scope.

(** A scalar number type.  [lit m e] is the literal [m * 10^e] (so [1e4] is
    [lit 1 4], [0.25] is [lit 25 (-2)] and the integer [3] is [lit 3 0]). *)
Class Num (F : Type) : Type := {
  num_ops :: Ops F;
  lit : Z -> Z -> F;
  abs : F -> F;
  ltb : F -> F -> bool;
  leb : F -> F -> bool;
  isnan : F -> bool
}.

Infix "<?" := ltb (at level 70, no associativity) : num_scope.
Infix "<=?" := leb (at level 70, no associativity) : num_scope.

Class Root (F : Type) : Type := {
  sqrt : F -> F
}.

(** [x ** n] for a number [x] and an integer [n], the platform's [pow]. *)
Class Pow (F : Type) : Type := {
  power : F -> nat -> F
}.

(** *** IEEE binary64 *)

Module F64.

Definition of_Z (z : Z) : PrimFloat.float :=
  match z with
  | Z0 => PrimFloat.zero
  | Zpos _ => PrimFloat.of_uint63 (Uint63.of_Z z)
  | Zneg p => PrimFloat.opp (PrimFloat.of_uint63 (Uint63.of_Z (Zpos p)))
  end.

(** A decimal literal is read as the nearest double.  For the literals of
    this program the mantissa and the power of ten are doubles themselves, so
    one correctly rounded multiplication or division gives that nearest
    double. *)
Definition of_dec (m e : Z) : PrimFloat.float :=
  match e with
  | Zneg p => PrimFloat.div (of_Z m) (of_Z (10 ^ Zpos p))
  | _ => of_Z (m * 10 ^ e)
  end.

#[export] Instance float_Ops : Ops PrimFloat.float := {
  add := PrimFloat.add;
  sub := PrimFloat.sub;
  mul := PrimFloat.mul;
  div := PrimFloat.div
}.

#[export] Instance float_Num : Num PrimFloat.float := {
  lit := of_dec;
  abs := PrimFloat.abs;
  ltb := PrimFloat.ltb;
  leb := PrimFloat.leb;
  isnan := PrimFloat.is_nan
}.

#[export] Instance float_Root : Root PrimFloat.float := {
  sqrt := PrimFloat.sqrt
}.

End F64.

(** *** Exact rationals *)

Module Rat.

Definition of_dec (m e : Z) : Qc := Q2Qc (inject_Z m * Qpower (inject_Z 10) e).

Definition qleb (x y : Qc) : bool := Qle_bool (this x) (this y).

#[export] Instance Qc_Ops : Ops Qc := {
  add := Qcplus;
  sub := Qcminus;
  mul := Qcmult;
  div := Qcdiv
}.

#[export] Instance Qc_Num : Num Qc := {
  lit := of_dec;
  abs := Qcabs;
  ltb := fun x y => negb (qleb y x);
  leb := qleb;
  isnan := fun _ => false
}.

#[export] Instance Qc_Pow : Pow Qc := {
  power := Qcpower
}.

End Rat.

Export F64 Rat.


(** ** Python outcomes and methods *)

(** The exceptions the modelled code can meet. *)
Inductive exn : Type :=
| ValueError       (* numpy: a reduction over an empty array *)
| IndexError       (* an index out of range *)
| TypeError        (* arithmetic on [None], [len(None)] *)
| AssertionError.  (* a failed [assert] *)

Inductive outcome (A : Type) : Type :=
| Returns (a : A)
| Raises (e : exn).

Arguments Raises {A} e.

Definition returned {A : Type} (o : outcome A) : bool :=
  match o with Returns _ => true | Raises _ => false end.

(** A method of an object of class [S]: it reads and mutates the object and
    returns or raises.  What it mutated before raising stays mutated. *)
Definition M (S A : Type) : Type := S -> outcome A * S.

Definition ret {S A : Type} (a : A) : M S A := fun s => (Returns a, s).

Definition bind {S A B : Type} (m : M S A) (k : A -> M S B) : M S B :=
  fun s =>
    match m s with
    | (Returns a, s') => k a s'
    | (Raises e, s') => (Raises e, s')
    end.

Definition modify {S : Type} (f : S -> S) : M S unit := fun s => (Returns tt, f s).

Definition gets {S A : Type} (f : S -> A) : M S A := fun s => (Returns (f s), s).

Definition lift {S A : Type} (o : outcome A) : M S A := fun s => (o, s).

Definition when {S : Type} (b : bool) (m : M S unit) : M S unit :=
  if b then m else ret tt.

Declare Scope method_scope.
Delimit Scope method_scope with method.

Notation "x <- c ;; k" := (bind c (fun x => k))
  (at level 61, c at next level, right associativity) : method_scope.
Notation "c ;; k" := (bind c (fun _ => k))
  (at level 61, right associativity) : method_scope.

(** ** numpy, as far as the program uses it *)

Section Numpy.

Context {F : Type} {NumF : Num F}.

Local Open Scope num_scope.

(** [x[indices]] for an index array: the selected entries, or [IndexError]. *)
Fixpoint np_index (x : list F) (indices : list nat) : outcome (list F) :=
  match indices with
  | [] => Returns []
  | i :: r =>
      match nth_error x i, np_index x r with
      | Some v, Returns vs => Returns (v :: vs)
      | None, _ => Raises IndexError
      | _, Raises e => Raises e
      end
  end.

(** [np.nonzero(condition)]: the positions where [condition] holds; [i] is
    the position of the head. *)
Fixpoint nonzero_from (i : nat) (condition : list bool) : list nat :=
  match condition with
  | [] => []
  | b :: r => if b then i :: nonzero_from (S i) r else nonzero_from (S i) r
  end.

Definition nonzero (condition : list bool) : list nat := nonzero_from 0 condition.

(** [np.extract(condition, arr)] is [np.take(arr, np.nonzero(condition))]:
    the entries of [arr] at the positions where [condition] holds, and
    [IndexError] when one of these positions is beyond [arr]. *)
Definition np_extract (condition : list bool) (arr : list F) : outcome (list F) :=
  np_index arr (nonzero condition).

(** numpy's [maximum] and [minimum] of two floats: a NaN on the left stays. *)
Definition maximum (a b : F) : F := if isnan a || (b <=? a) then a else b.

Definition minimum (a b : F) : F := if isnan a || (a <=? b) then a else b.

(** [np.max], [np.min]: a reduction from the first element; an empty array
    has none and numpy raises [ValueError]. *)
Definition np_max (a : list F) : outcome F :=
  match a with
  | [] => Raises ValueError
  | x :: r => Returns (fold_left maximum r x)
  end.

Definition np_min (a : list F) : outcome F :=
  match a with
  | [] => Raises ValueError
  | x :: r => Returns (fold_left minimum r x)
  end.

Definition np_abs (a : list F) : list F := map abs a.

(** The length of an array as a number. *)
Definition size (a : list F) : F := lit (Z.of_nat (List.length a)) 0.

(** numpy's sum of a block of 8 to 128 doubles: eight running sums
    [r0 .. r7], one for each position modulo 8, over the leading multiple of
    8 entries; the eight are then added pairwise, and what is left of the
    block is added from the left. *)
Fixpoint unrolled (r0 r1 r2 r3 r4 r5 r6 r7 : F) (a : list F) : F :=
  match a with
  | a0 :: a1 :: a2 :: a3 :: a4 :: a5 :: a6 :: a7 :: rest =>
      unrolled (r0 + a0) (r1 + a1) (r2 + a2) (r3 + a3)
               (r4 + a4) (r5 + a5) (r6 + a6) (r7 + a7) rest
  | _ => fold_left add a (((r0 + r1) + (r2 + r3)) + ((r4 + r5) + (r6 + r7)))
  end.

(** numpy's pairwise summation: fewer than 8 entries are added from the
    left, starting from 0; up to 128 are one block; more are split in two,
    the first part a multiple of 8 long, and the two sums added.  [fuel]
    bounds the depth of the splitting; the length of the array is enough
    (lemma [pairwise_sum_fuel]). *)
Fixpoint pairwise_sum (fuel : nat) (a : list F) : F :=
  let n := List.length a in
  if (n <? 8)%nat then fold_left add a (lit 0 0)
  else if (n <=? 128)%nat then
    match a with
    | a0 :: a1 :: a2 :: a3 :: a4 :: a5 :: a6 :: a7 :: rest =>
        unrolled a0 a1 a2 a3 a4 a5 a6 a7 rest
    | _ => fold_left add a (lit 0 0)
    end
  else
    match fuel with
    | O => fold_left add a (lit 0 0)
    | S fuel' =>
        let n2 := (n / 2 - (n / 2) mod 8)%nat in
        pairwise_sum fuel' (firstn n2 a) + pairwise_sum fuel' (skipn n2 a)
    end.

(** [np.sum] of an array of doubles: the reduction starts from the
    identity 0 and adds the pairwise sum of the array. *)
Definition np_sum (a : list F) : F := lit 0 0 + pairwise_sum (List.length a) a.

Definition np_mean (a : list F) : F := np_sum a / size a.

(** [x[i]] for one index. *)
Definition np_item (x : list F) (i : nat) : outcome F :=
  match nth_error x i with
  | Some v => Returns v
  | None => Raises IndexError
  end.

(** [np.argmin]: the first index of the least entry; the scan stops at a
    NaN.  [best] is the least entry so far, at index [besti]; [i] is the
    index of the head of the rest. *)
Fixpoint argmin_from (best : F) (besti i : nat) (rest : list F) : nat :=
  match rest with
  | [] => besti
  | x :: r =>
      if isnan best then besti
      else if best <=? x then argmin_from best besti (S i) r
      else argmin_from x i (S i) r
  end.

Definition np_argmin (a : list F) : outcome nat :=
  match a with
  | [] => Raises ValueError
  | x :: r => Returns (argmin_from x 0 1 r)
  end.

Context {RootF : Root F}.

(** [np.std]: the population standard deviation (no degrees-of-freedom
    correction), as numpy computes it: deviations from the mean, squared by
    a multiplication, averaged, square root. *)
Definition np_std (a : list F) : F :=
  let arrmean := np_mean a in
  let x := map (fun v => v - arrmean) a in
  let x := map (fun v => v * v) x in
  sqrt (np_sum x / size a).

End Numpy.

(** Sequencing of calls that may raise. *)
Definition obind {A B : Type} (o : outcome A) (k : A -> outcome B) : outcome B :=
  match o with
  | Returns a => k a
  | Raises e => Raises e
  end.

Notation "'try' x ':=' o 'in' k" := (obind o (fun x => k))
  (at level 10, x name, o at level 100, k at level 200).

(** ** Values of the Monte Carlo library

    [length], [density], [shear] and the transit time are either plain
    numbers or objects of the Monte Carlo library ([mc.Normal(mu, sigma)]
    and what its overloaded arithmetic builds from them).  The library is
    not part of the program: an object is kept as the record of the calls
    that built it, and [sample] reads it point by point, the way the library
    computes (the operators work element-wise on the objects' Monte Carlo
    points, a plain number standing for itself at every point). *)

Section MonteCarlo.

Context {F : Type} {NumF : Num F} {PowF : Pow F}.

Local Open Scope num_scope.

Inductive binop : Type := Add | Sub | Mul | Div.

Definition binop_eval (op : binop) (x y : F) : F :=
  match op with
  | Add => x + y
  | Sub => x - y
  | Mul => x * y
  | Div => x / y
  end.

Inductive uval : Type :=
| Scalar (x : F)                     (* a plain number *)
| Normal (id : nat) (mu sigma : F)   (* the object a call [mc.Normal(mu, sigma)] made; [id] tells the objects apart *)
| UFun (op : binop) (a b : uval)     (* an operator applied with an object on one side at least *)
| UPow (a : uval) (n : nat).         (* [a ** n] for an object [a] *)

(** [mc.Normal(mu, sigma)]: the library asserts [sigma > 0] before it makes
    the object. *)
Definition mc_Normal (id : nat) (mu sigma : F) : outcome uval :=
  if lit 0 0 <? sigma then Returns (Normal id mu sigma) else Raises AssertionError.

(** An operator on two plain numbers is the numbers' own; with an object on
    either side it is the library's. *)
Definition uop (op : binop) (a b : uval) : uval :=
  match a, b with
  | Scalar x, Scalar y => Scalar (binop_eval op x y)
  | _, _ => UFun op a b
  end.

Definition upow (a : uval) (n : nat) : uval :=
  match a with
  | Scalar x => Scalar (power x n)
  | _ => UPow a n
  end.

#[export] Instance uval_Ops : Ops uval := {
  add := uop Add;
  sub := uop Sub;
  mul := uop Mul;
  div := uop Div
}.

Definition is_scalar (u : uval) : bool :=
  match u with Scalar _ => true | _ => false end.

(** [draws id i] is the [i]-th Monte Carlo point of the variable [id]. *)
Definition draws : Type := nat -> nat -> F.

Fixpoint sample (d : draws) (i : nat) (u : uval) : F :=
  match u with
  | Scalar x => x
  | Normal id _ _ => d id i
  | UFun op a b => binop_eval op (sample d i a) (sample d i b)
  | UPow a n => power (sample d i a) n
  end.

(** The points of a value: the one evaluation of a plain number, the
    [npts] points of an object. *)
Definition points (d : draws) (npts : nat) (u : uval) : list F :=
  match u with
  | Scalar x => [x]
  | _ => map (fun i => sample d i u) (seq 0 npts)
  end.

End MonteCarlo.

Arguments uval F : clear implicits.
Arguments draws F : clear implicits.

(** The axes of the figure a mouse event can come from: the two signal
    plots, or anything else (another plot, or no axes at all). *)
Inductive axes : Type := ax_template | ax_query | ax_other.

Definition axes_is (a b : axes) : bool :=
  match a, b with
  | ax_template, ax_template | ax_query, ax_query | ax_other, ax_other => true
  | _, _ => false
  end.

(** ** class Signal *)

Module Signal.

Section Signal.

Context {F : Type} {NumF : Num F}.

Local Open Scope num_scope.

Record t : Type := mk {
  times : list F;
  signal : list F;
  length : uval F;
  density : uval F;
  shear : uval F;
  start : F;
  finish : F;
  pressed : bool;
  picks : list F;
  picked_times : list F;
  picked_signal : list F
}.

Definition set_start (v : F) (s : t) : t :=
  mk (times s) (signal s) (length s) (density s) (shear s) v (finish s)
     (pressed s) (picks s) (picked_times s) (picked_signal s).

Definition set_finish (v : F) (s : t) : t :=
  mk (times s) (signal s) (length s) (density s) (shear s) (start s) v
     (pressed s) (picks s) (picked_times s) (picked_signal s).

Definition set_pressed (b : bool) (s : t) : t :=
  mk (times s) (signal s) (length s) (density s) (shear s) (start s) (finish s)
     b (picks s) (picked_times s) (picked_signal s).

Definition set_picks (l : list F) (s : t) : t :=
  mk (times s) (signal s) (length s) (density s) (shear s) (start s) (finish s)
     (pressed s) l (picked_times s) (picked_signal s).

Definition set_picked (p : list F * list F) (s : t) : t :=
  mk (times s) (signal s) (length s) (density s) (shear s) (start s) (finish s)
     (pressed s) (picks s) (fst p) (snd p).

(** A mouse event: the axes under the pointer and the pointer's abscissa
    there, [None] when the pointer is outside every axes. *)
Record MouseEvent : Type := {
  inaxes : axes;
  xdata : option F
}.

(** [get_picked_data]: the samples of the window and their amplitudes over
    the largest absolute amplitude.  The division is numpy's: it never
    raises. *)
Definition get_picked_data (self : t) : outcome (list F * list F) :=
  let pick := map (fun x => (start self <=? x) && (x <=? finish self)) (times self) in
  try times' := np_extract pick (times self) in
  try signal' := np_extract pick (signal self) in
  try absmax := np_max (np_abs signal') in
  Returns (times', map (fun v => v / absmax) signal').

(** [move_line]: move the nearest line. *)
Definition move_line (event : MouseEvent) : M t unit :=
  fun self =>
    match xdata event with
    | None => (Raises TypeError, self)
    | Some click =>
        if abs (click - start self) <? abs (click - finish self)
        then (Returns tt, set_start click self)
        else (Returns tt, set_finish click self)
    end.

Local Open Scope method_scope.

(** [onpress]: mouse button pressed. *)
Definition onpress (event : MouseEvent) : M t unit :=
  modify (set_pressed true) ;;
  modify (set_picks []) ;;
  move_line event.

(** [onrelease]: mouse button released. *)
Definition onrelease (event : MouseEvent) : M t unit :=
  modify (set_pressed false) ;;
  move_line event ;;
  p <- (fun self => (get_picked_data self, self)) ;;
  modify (set_picked p).

(** [__init__]: the window starts at the two samples in the middle. *)
Definition init (data : list F * list F) (length density shear : uval F) : outcome t :=
  let secs := fst data in
  let times := map (fun x => x * lit 1 6) secs in
  try start := np_item times (List.length times / 2)%nat in
  try finish := np_item times (List.length times / 2 + 1)%nat in
  let self := mk times (snd data) length density shear start finish false [] [] [] in
  try p := get_picked_data self in
  Returns (set_picked p self).

(** [hilbert_abs], [hilbert_angle]: the envelope and the phase of the
    picked signal.  The transform is scipy's: [analytic_abs x] stands for
    [np.abs(hilbert(x))] and [analytic_angle x] for [np.angle(hilbert(x))]. *)
Section Hilbert.

Variables analytic_abs analytic_angle : list F -> list F.

Definition hilbert_angle (self : t) : list F :=
  map (fun v => v / lit 3141592653589793 (-15)) (analytic_angle (picked_signal self)).

Definition hilbert_abs (self : t) : list F :=
  analytic_abs (picked_signal self).

End Hilbert.

Context {RootF : Root F}.

(** [time_picks]: return picked time data. *)
Definition time_picks (self : t) : outcome (F * F * F * F) :=
  match picks self with
  | _ :: _ =>
      let time_picks := picks self in
      try lo := np_min time_picks in
      try hi := np_max time_picks in
      Returns (lo, hi, np_mean time_picks, np_std time_picks)
  | [] => Returns (lit (-1) 0, lit 1 0, lit 0 0, lit 25 (-2))
  end.

(** [mc_velocity]: [id] names the variable made for the transit time. *)
Definition mc_velocity (id : nat) (self : t) : outcome (uval F) :=
  try st := time_picks self in
  let time_mean := snd (fst st) in
  let time_std := snd st in
  try time := if lit 0 0 <? time_std then mc_Normal id time_mean time_std
              else Returns (Scalar time_mean) in
  let distance := length self in
  Returns ((distance / time) * Scalar (lit 1 4)).

Context {PowF : Pow F}.

Definition bulk_modulus (id : nat) (self : t) : outcome (uval F) :=
  let rho := density self in
  try v := mc_velocity id self in
  let mu := shear self in
  Returns ((Scalar (lit 1 (-6)) * rho * upow v 2) - (Scalar (lit 4 0 / lit 3 0) * mu)).

Definition young_modulus (id : nat) (self : t) : outcome (uval F) :=
  let mu := shear self in
  try k := bulk_modulus id self in
  Returns ((Scalar (lit 3 0) * k - Scalar (lit 2 0) * mu)
           / (Scalar (lit 2 0) * (Scalar (lit 3 0) * k + mu))).

Definition poissons_ratio (id : nat) (self : t) : outcome (uval F) :=
  let mu := shear self in
  try k := bulk_modulus id self in
  Returns ((Scalar (lit 9 0) * k * mu) / (Scalar (lit 3 0) * k + mu)).

End Signal.

Arguments t F : clear implicits.
Arguments MouseEvent F : clear implicits.

End Signal.

(** ** class Poropyck: the event handlers *)

Module Poropyck.

Section Poropyck.

Context {F : Type} {NumF : Num F} {RootF : Root F}.

(** What the program takes from outside: the [dtw] function (the two index
    arrays of its result, the slice [[1:3]]) and scipy's transform. *)
Variable dtw : list F -> list F -> list nat * list nat.
Variables analytic_abs analytic_angle : list F -> list F.

Local Open Scope num_scope.
Local Open Scope method_scope.

Record t : Type := mk {
  template : Signal.t F;
  query : Signal.t F;
  indices1 : option (list nat);
  indices1a : option (list nat);
  indices1h : option (list nat);
  indices2 : option (list nat);
  indices2a : option (list nat);
  indices2h : option (list nat)
}.

(** A pick event on a plotted line: the indices of the line's points under
    the pointer, the line's data, and the pointer's position. *)
Record PickEvent : Type := {
  ind : list nat;
  artist_xdata : list F;
  artist_ydata : list F;
  mouse_x : F;
  mouse_y : F
}.

(** The plotting calls at the end of [run_dtw] ([plot_dtw], [plot_summary])
    and of [onpick] ([plot_summary], [highlight_summary],
    [plot_monte_carlo]).  They draw from the object and change none of the
    fields above; they raise when the object is not what they expect
    ([plot_summary] takes [len(self.indices1h)], a [TypeError] before the
    first alignment). *)
Variables plot_alignment plot_picks : t -> outcome unit.

Definition reads {A : Type} (f : t -> outcome A) : M t A := fun self => (f self, self).

(** A method of one of the two signals, run on the signal the program holds. *)
Definition on_template {A : Type} (m : M (Signal.t F) A) : M t A :=
  fun self =>
    let (r, s) := m (template self) in
    (r, mk s (query self) (indices1 self) (indices1a self) (indices1h self)
           (indices2 self) (indices2a self) (indices2h self)).

Definition on_query {A : Type} (m : M (Signal.t F) A) : M t A :=
  fun self =>
    let (r, s) := m (query self) in
    (r, mk (template self) s (indices1 self) (indices1a self) (indices1h self)
           (indices2 self) (indices2a self) (indices2h self)).

Definition append (v : F) (s : Signal.t F) : Signal.t F :=
  Signal.set_picks (Signal.picks s ++ [v]) s.

(** [run_dtw]: run dynamic time warping on the picked signals, their
    envelopes and their phases. *)
Definition run_dtw : M t unit :=
  modify (fun self =>
    let q := query self in
    let tp := template self in
    let r := dtw (Signal.picked_signal q) (Signal.picked_signal tp) in
    let rh := dtw (Signal.hilbert_abs analytic_abs q) (Signal.hilbert_abs analytic_abs tp) in
    let ra := dtw (Signal.hilbert_angle analytic_angle q) (Signal.hilbert_angle analytic_angle tp) in
    mk tp q (Some (fst r)) (Some (fst ra)) (Some (fst rh))
            (Some (snd r)) (Some (snd ra)) (Some (snd rh))) ;;
  reads plot_alignment.

(** [onpress]: mouse button pressed. *)
Definition onpress (event : Signal.MouseEvent F) : M t unit :=
  let a := Signal.inaxes event in
  when (axes_is a ax_template || axes_is a ax_query)
    (when (axes_is a ax_template) (on_template (Signal.onpress event)) ;;
     when (axes_is a ax_query) (on_query (Signal.onpress event))).

(** [onrelease]: mouse button released. *)
Definition onrelease (event : Signal.MouseEvent F) : M t unit :=
  tp <- gets (fun self => Signal.pressed (template self)) ;;
  qp <- gets (fun self => Signal.pressed (query self)) ;;
  when (tp || qp)
    (when tp (on_template (Signal.onrelease event)) ;;
     qp' <- gets (fun self => Signal.pressed (query self)) ;;
     when qp' (on_query (Signal.onrelease event)) ;;
     run_dtw).

(** [onmotion]: mouse moves. *)
Definition onmotion (event : Signal.MouseEvent F) : M t unit :=
  let a := Signal.inaxes event in
  when (axes_is a ax_template || axes_is a ax_query)
    (tp <- gets (fun self => Signal.pressed (template self)) ;;
     qp <- gets (fun self => Signal.pressed (query self)) ;;
     when (tp || qp)
       (when tp (on_template (Signal.move_line event)) ;;
        qp' <- gets (fun self => Signal.pressed (query self)) ;;
        when qp' (on_query (Signal.move_line event)))).

(** [x ** 2] on an array of doubles is numpy's [square], the product of
    each entry with itself. *)
Definition square (x : F) : F := x * x.

(** The distance of each selected point to the pointer. *)
Definition pick_dists (event : PickEvent) (xdata ydata : list F) : list F :=
  map (fun p => sqrt (square (fst p - mouse_x event) + square (snd p - mouse_y event)))
      (combine xdata ydata).

(** [onpick]: pick values from the active plot. *)
Definition onpick (event : PickEvent) : M t unit :=
  let indices := ind event in
  xdata <- lift (np_index (artist_xdata event) indices) ;;
  ydata <- lift (np_index (artist_ydata event) indices) ;;
  let dists := pick_dists event xdata ydata in
  kx <- lift (np_argmin dists) ;;
  xpoint <- lift (np_item xdata kx) ;;
  ky <- lift (np_argmin dists) ;;
  ypoint <- lift (np_item ydata ky) ;;
  on_template (modify (append ypoint)) ;;
  on_query (modify (append xpoint)) ;;
  reads plot_picks.

(** The callbacks [__init__] connects to the canvas. *)
Inductive event : Type :=
| button_press_event (e : Signal.MouseEvent F)
| button_release_event (e : Signal.MouseEvent F)
| motion_notify_event (e : Signal.MouseEvent F)
| pick_event (e : PickEvent).

Definition handle (ev : event) : M t unit :=
  match ev with
  | button_press_event e => onpress e
  | button_release_event e => onrelease e
  | motion_notify_event e => onmotion e
  | pick_event e => onpick e
  end.

End Poropyck.

Arguments t F : clear implicits.
Arguments PickEvent F : clear implicits.
Arguments event F : clear implicits.

End Poropyck.

(** ** [plot_summary]: the line the picks are taken from *)

Section Summary.

Context {F : Type}.

(** [np.take(x, i)] for one index: an index from [-len(x)] to [-1] counts
    from the end; one outside [-len(x) .. len(x) - 1] raises. *)
Definition np_take_item (x : list F) (i : Z) : outcome F :=
  let n := Z.of_nat (List.length x) in
  if ((0 <=? i) && (i <? n))%Z then np_item x (Z.to_nat i)
  else if ((- n <=? i) && (i <? 0))%Z then np_item x (Z.to_nat (n + i))
  else Raises IndexError.

Fixpoint np_take (x : list F) (indices : list Z) : outcome (list F) :=
  match indices with
  | [] => Returns []
  | i :: r =>
      try v := np_take_item x i in
      try vs := np_take x r in
      Returns (v :: vs)
  end.

(** The indices of an alignment path, counted from 1, as positions counted
    from 0: [indices.astype(int) - 1]. *)
Definition positions (indices : list nat) : list Z :=
  map (fun i => (Z.of_nat i - 1)%Z) indices.

(** The data [(idxqo, idxto)] of the line [plot_summary] draws with a
    picker, the one pick events come from: the picked times of the query
    and of the template along the alignment path of the picked signals.
    [len(None)] and [None[:end]] raise [TypeError]. *)
Definition summary_line (self : Poropyck.t F) : outcome (list F * list F) :=
  let query_times := Signal.picked_times (Poropyck.query self) in
  let template_times := Signal.picked_times (Poropyck.template self) in
  match Poropyck.indices1 self with
  | None => Raises TypeError
  | Some indices1 =>
      let end_ := List.length indices1 in
      match Poropyck.indices2 self with
      | None => Raises TypeError
      | Some indices2 =>
          try idxto := np_take template_times (positions (firstn end_ indices2)) in
          try idxqo := np_take query_times (positions indices1) in
          Returns (idxqo, idxto)
      end
  end.

End Summary.

(** ** main: the two signals built from the metadata and the two tables *)

Section Main.

Context {F : Type} {NumF : Num F} {RootF : Root F}.

(** The sample metadata read from the JSON file. *)
Record Metadata : Type := {
  length_raw : list F;
  density_dry_mean : F;
  density_dry_std : F;
  shear_dry_mu : F;
  shear_dry_d_mu : F;
  density_sat_mean : F;
  density_sat_std : F;
  shear_sat_mu : F;
  shear_sat_d_mu : F
}.

(** [main]: the five calls of [mc.Normal] make the variables 0 to 4; both
    signals share [mc_length].  Every parameter goes to [mc.Normal] as it
    is: no standard deviation is tested first. *)
Definition main (metadata : Metadata) (template_csv query_csv : list F * list F)
  : outcome (Poropyck.t F) :=
  try mc_length := mc_Normal 0 (np_mean (length_raw metadata)) (np_std (length_raw metadata)) in
  try mc_density := mc_Normal 1 (density_dry_mean metadata) (density_dry_std metadata) in
  try mc_shear := mc_Normal 2 (shear_dry_mu metadata) (shear_dry_d_mu metadata) in
  try template := Signal.init template_csv mc_length mc_density mc_shear in
  try mc_density := mc_Normal 3 (density_sat_mean metadata) (density_sat_std metadata) in
  try mc_shear := mc_Normal 4 (shear_sat_mu metadata) (shear_sat_d_mu metadata) in
  try query := Signal.init query_csv mc_length mc_density mc_shear in
  Returns (Poropyck.mk template query None None None None None None).

End Main.

Arguments Metadata F : clear implicits.

(** ** The alignment engine *)

Module Dtw.

Section Dtw.

Context {F : Type} {NumF : Num F}.

Local Open Scope num_scope.

(** Modelled from the spec: the local cost of the alignment engine,
    [d(i,j) = |A[i] - B[j]|]; the [dtw] module the program imports is not
    among its sources. *)
Definition local_cost (a b : F) : F := abs (a - b).

(** Modelled from the spec: the least of the three predecessors' costs. *)
Definition min3 (diag vert horiz : F) : F :=
  let m := if vert <? diag then vert else diag in
  if horiz <? m then horiz else m.

(** Modelled from the spec: the first row of the cumulative-cost matrix,
    accumulated along the edge from [cost(0,0) = d(1,1)]; [prev] is the cost
    to the left. *)
Fixpoint first_row_from (a prev : F) (B : list F) : list F :=
  match B with
  | [] => []
  | b :: r => let c := local_cost a b + prev in c :: first_row_from a c r
  end.

Definition first_row (a : F) (B : list F) : list F :=
  match B with
  | [] => []
  | b :: r => let c := local_cost a b in c :: first_row_from a c r
  end.

(** Modelled from the spec: a further row from the row [up] above it,
    [cost(i,j) = d(i,j) + min(cost(i-1,j), cost(i,j-1), cost(i-1,j-1))],
    its first entry accumulated along the edge. *)
Fixpoint next_row_from (a diag left : F) (up B : list F) : list F :=
  match B, up with
  | b :: rb, u :: ru =>
      let c := local_cost a b + min3 diag u left in
      c :: next_row_from a u c ru rb
  | _, _ => []
  end.

Definition next_row (a : F) (up B : list F) : list F :=
  match B, up with
  | b :: rb, u :: ru =>
      let c := local_cost a b + u in
      c :: next_row_from a u c ru rb
  | _, _ => []
  end.

Fixpoint rows (A up B : list F) : list (list F) :=
  match A with
  | [] => []
  | a :: r => let row := next_row a up B in row :: rows r row B
  end.

(** Modelled from the spec: the [|A| x |B|] cumulative-cost matrix. *)
Definition cost_matrix (A B : list F) : list (list F) :=
  match A with
  | [] => []
  | a :: r => let row := first_row a B in row :: rows r row B
  end.

Definition cost (m : list (list F)) (i j : nat) : F :=
  nth j (nth i m []) (lit 0 0).

Inductive move : Type := diagonal | vertical | horizontal.

(** Modelled from the spec: the predecessor of the cell [(i+1, j+1)] that
    achieved the minimum; on a tie the diagonal, then the vertical, then the
    horizontal one. *)
Definition predecessor (m : list (list F)) (i j : nat) : move :=
  let cd := cost m i j in
  let cv := cost m i (S j) in
  let ch := cost m (S i) j in
  if cv <? cd
  then if ch <? cv then horizontal else vertical
  else if ch <? cd then horizontal else diagonal.

(** Modelled from the spec: backtracking from the cell [(i, j)] (counted
    from 0) to the first cell; the path lists the cells from the first one,
    counted from 1.  [fuel] bounds the number of steps; [i + j] is enough. *)
Fixpoint backtrack (fuel : nat) (m : list (list F)) (i j : nat) : list (nat * nat) :=
  match fuel with
  | O => [(S i, S j)]
  | S fuel' =>
      match i, j with
      | O, O => [(1, 1)%nat]
      | O, S j' => backtrack fuel' m O j' ++ [(S i, S j)]
      | S i', O => backtrack fuel' m i' O ++ [(S i, S j)]
      | S i', S j' =>
          match predecessor m i' j' with
          | diagonal => backtrack fuel' m i' j'
          | vertical => backtrack fuel' m i' j
          | horizontal => backtrack fuel' m i j'
          end ++ [(S i, S j)]
      end
  end.

(** Modelled from the spec: the alignment of [A] (reference) and [B]
    (target): the accumulated cost and the two index sequences of the path.
    The spec gives no path for an empty sequence; none is built. *)
Definition dtw (A B : list F) : F * list nat * list nat :=
  match A, B with
  | _ :: _, _ :: _ =>
      let m := cost_matrix A B in
      let i := (List.length A - 1)%nat in
      let j := (List.length B - 1)%nat in
      let path := backtrack (i + j) m i j in
      (cost m i j, map fst path, map snd path)
  | _, _ => (lit 0 0, [], [])
  end.

End Dtw.

End Dtw.

(** ** The closed forms of the elastic properties, as the specification
    writes them *)

Section ClosedForm.

Context {F : Type} {NumF : Num F} {PowF : Pow F}.

Local Open Scope num_scope.

Definition velocity_of (length time : F) : F :=
  (length / time) * lit 1 4.

Definition bulk_modulus_of (density velocity shear : F) : F :=
  (lit 1 (-6) * density * power velocity 2) - (lit 4 0 / lit 3 0) * shear.

Definition young_modulus_of (bulk_modulus shear : F) : F :=
  (lit 3 0 * bulk_modulus - lit 2 0 * shear)
  / (lit 2 0 * (lit 3 0 * bulk_modulus + shear)).

Definition poissons_ratio_of (bulk_modulus shear : F) : F :=
  (lit 9 0 * bulk_modulus * shear) / (lit 3 0 * bulk_modulus + shear).

End ClosedForm.

(** ** The window of a signal, as the specification reads it *)

Section Window.

Context {F : Type} {NumF : Num F}.

Local Open Scope num_scope.

(** The filtered range: the samples [(t, amplitude)] with
    [start <= t <= finish], both bounds included. *)
Definition window_samples (self : Signal.t F) : list (F * F) :=
  filter (fun p => (Signal.start self <=? fst p) && (fst p <=? Signal.finish self))
         (combine (Signal.times self) (Signal.signal self)).

(** The two bounds of the window. *)
Definition bounds (self : Signal.t F) : F * F :=
  (Signal.start self, Signal.finish self).

End Window.

(** ** Statistics and the transit time, as the specification reads them *)

Section Statistics.

Context {F : Type} {NumF : Num F} {RootF : Root F}.

Local Open Scope num_scope.


(** The transit time of a signal: the Gaussian of the picks' mean and
    standard deviation, or the mean itself when the deviation is not
    positive. *)
Definition transit_time (id : nat) (self : Signal.t F) : outcome (uval F) :=
  try st := Signal.time_picks self in
  Returns (if lit 0 0 <? snd st
           then Normal id (snd (fst st)) (snd st)
           else Scalar (snd (fst st))).

End Statistics.

(** Whether every point of a distribution is non-finite (an infinity or a
    NaN). *)
Definition all_non_finite (pts : list float) : bool :=
  forallb (fun x => negb (PrimFloat.is_finite x)) pts.

(** ** The pick sets of the program *)

Section PickSets.

Context {F : Type}.

Definition template_picks (p : Poropyck.t F) : list F :=
  Signal.picks (Poropyck.template p).

Definition query_picks (p : Poropyck.t F) : list F :=
  Signal.picks (Poropyck.query p).


(** A method of the program that leaves both pick sets as they are. *)
Definition keeps_picks {A : Type} (m : M (Poropyck.t F) A) : Prop :=
  forall p, template_picks (snd (m p)) = template_picks p /\
            query_picks (snd (m p)) = query_picks p.

(** A method of a signal that leaves its pick set as it is. *)
Definition keeps_own_picks {A : Type} (m : M (Signal.t F) A) : Prop :=
  forall s, Signal.picks (snd (m s)) = Signal.picks s.

End PickSets.

(** ** Parts of a signal *)

Section Parts.

Context {F : Type}.

(** What a signal is given when it is made: its samples and the
    properties of the rock. *)
Definition given (s : Signal.t F) : list F * list F * uval F * uval F * uval F :=
  (Signal.times s, Signal.signal s, Signal.length s, Signal.density s, Signal.shear s).

(** Everything but the two bounds of the window. *)
Definition but_bounds (s : Signal.t F) :=
  (given s, Signal.pressed s, Signal.picks s, Signal.picked_times s, Signal.picked_signal s).

(** Everything but the picks. *)
Definition but_picks (s : Signal.t F) :=
  (given s, Signal.start s, Signal.finish s, Signal.pressed s,
   Signal.picked_times s, Signal.picked_signal s).

(** The six index arrays of the program. *)
Definition indices (p : Poropyck.t F) :=
  (Poropyck.indices1 p, Poropyck.indices1a p, Poropyck.indices1h p,
   Poropyck.indices2 p, Poropyck.indices2a p, Poropyck.indices2h p).

(** A method of the program that leaves the part [part] of both signals
    as it is. *)
Definition keeps {X A : Type} (part : Signal.t F -> X) (m : M (Poropyck.t F) A) : Prop :=
  forall p, part (Poropyck.template (snd (m p))) = part (Poropyck.template p) /\
            part (Poropyck.query (snd (m p))) = part (Poropyck.query p).

(** A method of a signal that leaves its part [part] as it is. *)
Definition keeps_own {X A : Type} (part : Signal.t F -> X) (m : M (Signal.t F) A) : Prop :=
  forall s, part (snd (m s)) = part s.

(** The picked data of a signal are those of its window. *)
Definition picked_is_current {NumF : Num F} (s : Signal.t F) : Prop :=
  Signal.get_picked_data s = Returns (Signal.picked_times s, Signal.picked_signal s).

(** The alignment the program holds after [run_dtw]: the three calls of
    [dtw], each with the query first. *)
Definition aligned {NumF : Num F}
  (dtw : list F -> list F -> list nat * list nat)
  (analytic_abs analytic_angle : list F -> list F) (p : Poropyck.t F) : Prop :=
  let q := Poropyck.query p in
  let tp := Poropyck.template p in
  let r := dtw (Signal.picked_signal q) (Signal.picked_signal tp) in
  let rh := dtw (Signal.hilbert_abs analytic_abs q) (Signal.hilbert_abs analytic_abs tp) in
  let ra := dtw (Signal.hilbert_angle analytic_angle q)
                (Signal.hilbert_angle analytic_angle tp) in
  indices p = (Some (fst r), Some (fst ra), Some (fst rh),
               Some (snd r), Some (snd ra), Some (snd rh)).

End Parts.

(** ** Alignment paths *)

(** What a backtracked path is: it starts at the first cell, ends at the
    cell it was asked for, and never steps back in either component. *)
Definition path_to (i j : nat) (p : list (nat * nat)) : Prop :=
  hd_error p = Some (1, 1)%nat /\
  (forall d, last (map fst p) d = i) /\
  (forall d, last (map snd p) d = j) /\
  Sorted le (map fst p) /\
  Sorted le (map snd p).

(** ** The order of the doubles

    IEEE comparison orders the numbers that are not NaN like the triples
    (class, exponent, mantissa) below, compared from the left; the classes
    are, in order, minus infinity, the negative numbers, the two zeros, the
    positive numbers and plus infinity. *)

Definition SFkey (x : spec_float) : option (Z * Z * Z) :=
  match x with
  | S754_nan => None
  | S754_infinity true => Some (-2, 0, 0)%Z
  | S754_infinity false => Some (2, 0, 0)%Z
  | S754_zero _ => Some (0, 0, 0)%Z
  | S754_finite true m e => Some (-1, - e, - Zpos m)%Z
  | S754_finite false m e => Some (1, e, Zpos m)%Z
  end.

Definition key_le (a b : option (Z * Z * Z)) : Prop :=
  match a, b with
  | Some (a1, a2, a3), Some (b1, b2, b3) =>
      (a1 < b1 \/ (a1 = b1 /\ (a2 < b2 \/ (a2 = b2 /\ a3 <= b3))))%Z
  | _, _ => False
  end.

(** A mantissa with its rounding bits, scaled by [2^e], stands for a
    number that is at most 1: the mantissa is below [2^-e], or it is
    [2^-e] and nothing is left in the rounding bits. *)
Definition at_most_one (mrs : shr_record) (e : Z) : Prop :=
  (e <= 0 /\ 0 <= shr_m mrs /\
   (shr_m mrs < 2 ^ (- e) \/
    (shr_m mrs = 2 ^ (- e) /\ shr_r mrs = false /\ shr_s mrs = false)))%Z.

(** ** Concrete signals *)

Module Demo.

Local Open Scope float_scope.

(** Four samples, the window on the two in the middle; length, density and
    shear modulus held as plain numbers. *)
Definition sig (picks : list float) : Signal.t float :=
  Signal.mk [0; 1; 2; 3] [1; -4; 2; 0] (Scalar 10000) (Scalar 2.5) (Scalar 10)
            1 2 false picks [1; 2] [-1; 0.5].

(** The same with amplitude zero all over the window. *)
Definition flat : Signal.t float :=
  Signal.mk [0; 1; 2; 3] [1; 0; 0; 3] (Scalar 10000) (Scalar 2.5) (Scalar 10)
            1 2 false [] [] [].

(** The same with an infinite amplitude in the window. *)
Definition unbounded : Signal.t float :=
  Signal.mk [0; 1; 2; 3] [1; -4; infinity; 0] (Scalar 10000) (Scalar 2.5) (Scalar 10)
            1 2 false [] [] [].

(** Metadata with every standard deviation zero, metadata with every
    standard deviation positive, and a table of three samples. *)
Definition zero_std : Metadata float :=
  Build_Metadata [10000; 10000] 2.5 0 10 0 2.5 0 10 0.

Definition metadata : Metadata float :=
  Build_Metadata [10000; 10002] 2.5 0.125 10 0.5 2.75 0.125 11 0.5.

Definition table : list float * list float := ([0; 1; 2], [1; 2; 3]).


Definition program (template query : Signal.t float) : Poropyck.t float :=
  Poropyck.mk template query None None None None None None.

End Demo.

(** ** Laws of the arithmetic *)

(** What the comparisons of any sensible number type satisfy; IEEE
    comparisons do, NaN included. *)
Class Ordered (F : Type) {NumF : Num F} : Prop := {
  ge_not_lt : forall a b : F, (b <=? a)%num = true -> (a <? b)%num = false;
  lt_irrefl : forall a : F, (a <? a)%num = false
}.

(** Exact arithmetic: a totally ordered field with its absolute value, and
    no NaN.  IEEE arithmetic meets these laws only up to rounding and away
    from infinities and NaN. *)
Class Exact (F : Type) {NumF : Num F} : Prop := {
  never_nan : forall x : F, isnan x = false;
  leb_total : forall a b : F, (a <=? b)%num = true \/ (b <=? a)%num = true;
  leb_antisym : forall a b : F, (a <=? b)%num = true -> (b <=? a)%num = true -> a = b;
  leb_trans : forall a b c : F,
    (a <=? b)%num = true -> (b <=? c)%num = true -> (a <=? c)%num = true;
  abs_nonneg : forall x : F, (lit 0 0 <=? abs x)%num = true;
  abs_zero : forall x : F, abs x = lit 0 0 -> x = lit 0 0;
  abs_div : forall x m : F,
    (lit 0 0 <=? m)%num = true -> abs (x / m)%num = (abs x / m)%num;
  div_mono : forall a b m : F,
    (a <=? b)%num = true -> (lit 0 0 <=? m)%num = true -> (a / m <=? b / m)%num = true;
  div_self : forall m : F, m <> lit 0 0 -> (m / m)%num = lit 1 0
}.

(** What is left of an order in floating point: the numbers that are not
    NaN are totally preordered (the two zeros are equal and distinct), a NaN
    compares with nothing, and the absolute value of a NaN is a NaN. *)
Class Comparable (F : Type) {NumF : Num F} : Prop := {
  cmp_total : forall a b : F,
    isnan a = false -> isnan b = false -> (a <=? b)%num = true \/ (b <=? a)%num = true;
  cmp_trans : forall a b c : F,
    (a <=? b)%num = true -> (b <=? c)%num = true -> (a <=? c)%num = true;
  nan_leb_l : forall a b : F, isnan a = true -> (a <=? b)%num = false;
  nan_leb_r : forall a b : F, isnan b = true -> (a <=? b)%num = false;
  nan_abs : forall a : F, isnan (abs a) = isnan a
}.

Arguments Ordered F {NumF}.
Arguments Exact F {NumF}.
Arguments Comparable F {NumF}.

(** *** The literals of the program, as doubles *)

Example lit_1e4 : lit 1 4 = 10000%float.
Proof. reflexivity. Qed.

Example lit_1e_6 : lit 1 (-6) = 0x1.0c6f7a0b5ed8dp-20%float.
Proof. reflexivity. Qed.

Example lit_quarter : lit 25 (-2) = 0.25%float.
Proof. reflexivity. Qed.

Example lit_pi : lit 3141592653589793 (-15) = 0x1.921fb54442d18p+1%float.
Proof. reflexivity. Qed.

(** *** IEEE comparisons are ordered *)

Lemma SFcompare_swap (x y : spec_float) (c : comparison) :
  SFcompare x y = Some c -> SFcompare y x = Some (CompOpp c).
Proof.
  destruct x as [sx|sx| |sx mx ex], y as [sy|sy| |sy my ey]; simpl;
    try discriminate; intros [= <-];
    try (destruct sx; try destruct sy; reflexivity).
  pose proof (Pos.compare_cont_antisym mx my Eq) as H.
  change (CompOpp Eq) with Eq in H.
  change PosDef.Pos.compare_cont with Pos.compare_cont.
  destruct sx, sy; try reflexivity;
    rewrite (Z.compare_antisym ex ey);
    destruct (ex ?= ey)%Z; simpl; try reflexivity;
    rewrite <- H; try rewrite CompOpp_involutive; reflexivity.
Qed.

Lemma float_ge_not_lt (a b : float) :
  PrimFloat.leb b a = true -> PrimFloat.ltb a b = false.
Proof.
  rewrite leb_spec, ltb_spec. unfold SFleb, SFltb.
  destruct (SFcompare (Prim2SF b) (Prim2SF a)) as [c|] eqn:E; try discriminate.
  rewrite (SFcompare_swap _ _ E).
  destruct c; simpl; congruence.
Qed.

Lemma float_lt_irrefl (a : float) : PrimFloat.ltb a a = false.
Proof.
  rewrite ltb_spec. unfold SFltb.
  destruct (SFcompare (Prim2SF a) (Prim2SF a)) as [c|] eqn:E; try reflexivity.
  pose proof (SFcompare_swap _ _ E) as E'. rewrite E in E'.
  destruct c; simpl in E'; congruence.
Qed.

#[export] Instance float_Ordered : Ordered float.
Proof.
  split; [exact float_ge_not_lt | exact float_lt_irrefl].
Qed.

(** *** IEEE comparison is a total preorder away from NaN *)

Lemma SFleb_key_le (x y : spec_float) :
  SFleb x y = true <-> key_le (SFkey x) (SFkey y).
Proof.
  unfold SFleb.
  destruct x as [[|]|[|]| |[|] mx ex], y as [[|]|[|]| |[|] my ey];
    cbn [SFcompare SFkey key_le]; try (split; [intros; lia | reflexivity]);
    try (split; [discriminate | intros; lia]);
    try (split; [discriminate | intros []]).
  - change (PosDef.Pos.compare_cont Eq mx my) with (Pos.compare mx my).
    destruct (Z.compare_spec ex ey); cbn [CompOpp];
      try (split; [intros; lia | reflexivity]);
      try (split; [discriminate | intros; lia]).
    destruct (Pos.compare_spec mx my); cbn [CompOpp];
      try (split; [intros; lia | reflexivity]);
      try (split; [discriminate | intros; lia]).
  - change (PosDef.Pos.compare_cont Eq mx my) with (Pos.compare mx my).
    destruct (Z.compare_spec ex ey); cbn [CompOpp];
      try (split; [intros; lia | reflexivity]);
      try (split; [discriminate | intros; lia]).
    destruct (Pos.compare_spec mx my); cbn [CompOpp];
      try (split; [intros; lia | reflexivity]);
      try (split; [discriminate | intros; lia]).
Qed.

Lemma key_le_trans a b c : key_le a b -> key_le b c -> key_le a c.
Proof.
  destruct a as [[[a1 a2] a3]|], b as [[[b1 b2] b3]|], c as [[[c1 c2] c3]|];
    cbn [key_le]; try tauto; lia.
Qed.

Lemma key_le_total a b : a <> None -> b <> None -> key_le a b \/ key_le b a.
Proof.
  destruct a as [[[a1 a2] a3]|], b as [[[b1 b2] b3]|];
    cbn [key_le]; try congruence; intros; lia.
Qed.

Lemma is_nan_key (x : float) :
  PrimFloat.is_nan x = false <-> SFkey (Prim2SF x) <> None.
Proof.
  unfold PrimFloat.is_nan. rewrite eqb_spec. unfold SFeqb.
  destruct (Prim2SF x) as [[|]|[|]| |[|] mx ex]; cbn [SFcompare SFkey negb];
    try (split; [discriminate | reflexivity]);
    try (split; [discriminate | congruence]).
  - rewrite Z.compare_refl. cbn [CompOpp].
    change (PosDef.Pos.compare_cont Eq mx mx) with (Pos.compare mx mx).
    rewrite Pos.compare_refl. split; [discriminate | reflexivity].
  - rewrite Z.compare_refl.
    change (PosDef.Pos.compare_cont Eq mx mx) with (Pos.compare mx mx).
    rewrite Pos.compare_refl. split; [discriminate | reflexivity].
Qed.

Lemma SFkey_abs_None x : SFkey (SFabs x) = None <-> SFkey x = None.
Proof. destruct x as [[|]|[|]| |[|] mx ex]; cbn; split; congruence. Qed.

Lemma float_leb_total (a b : float) :
  PrimFloat.is_nan a = false -> PrimFloat.is_nan b = false ->
  PrimFloat.leb a b = true \/ PrimFloat.leb b a = true.
Proof.
  rewrite !is_nan_key, !leb_spec, !SFleb_key_le. apply key_le_total.
Qed.

Lemma float_leb_trans (a b c : float) :
  PrimFloat.leb a b = true -> PrimFloat.leb b c = true -> PrimFloat.leb a c = true.
Proof. rewrite !leb_spec, !SFleb_key_le. apply key_le_trans. Qed.

Lemma float_leb_nan_l (a b : float) :
  PrimFloat.is_nan a = true -> PrimFloat.leb a b = false.
Proof.
  intros H. apply not_true_iff_false. rewrite leb_spec, SFleb_key_le.
  destruct (SFkey (Prim2SF a)) eqn:E.
  - assert (PrimFloat.is_nan a = false) by (apply is_nan_key; congruence). congruence.
  - now cbn.
Qed.

Lemma float_leb_nan_r (a b : float) :
  PrimFloat.is_nan b = true -> PrimFloat.leb a b = false.
Proof.
  intros H. apply not_true_iff_false. rewrite leb_spec, SFleb_key_le.
  destruct (SFkey (Prim2SF b)) eqn:E.
  - assert (PrimFloat.is_nan b = false) by (apply is_nan_key; congruence). congruence.
  - destruct (SFkey (Prim2SF a)) as [[[? ?] ?]|]; now cbn.
Qed.

Lemma float_abs_nan (a : float) :
  PrimFloat.is_nan (PrimFloat.abs a) = PrimFloat.is_nan a.
Proof.
  destruct (PrimFloat.is_nan a) eqn:E.
  - apply not_false_iff_true. intros H. apply is_nan_key in H.
    rewrite abs_spec in H.
    assert (PrimFloat.is_nan a = false); [|congruence].
    apply is_nan_key. intros K. apply H. now apply SFkey_abs_None.
  - apply is_nan_key. apply is_nan_key in E. rewrite abs_spec.
    intros K. apply E. now apply SFkey_abs_None.
Qed.

#[export] Instance float_Comparable : Comparable float.
Proof.
  split.
  - exact float_leb_total.
  - exact float_leb_trans.
  - exact float_leb_nan_l.
  - exact float_leb_nan_r.
  - exact float_abs_nan.
Qed.

(** *** IEEE division: a number over its own absolute value, and over zero *)

(** The quotient of two equal mantissas is exactly [2^53 * 2^-53]. *)
Lemma SFdiv_core_self (m : positive) (e : Z) :
  SFdiv_core_binary prec emax (Zpos m) e (Zpos m) e = ((2 ^ 53)%Z, (-53)%Z, loc_Exact).
Proof.
  unfold SFdiv_core_binary.
  rewrite !Z.sub_diag.
  change (Z.min (fexp prec emax 0) 0) with (-53)%Z.
  change (0 - -53)%Z with 53%Z.
  change (0 <? 53)%Z with true. cbv iota.
  rewrite Z.shiftl_mul_pow2 by lia.
  assert (Hq : (Z.pos m * 2 ^ 53 / Z.pos m = 2 ^ 53)%Z).
  { rewrite Z.mul_comm. apply Z.div_mul. lia. }
  assert (Hr : ((Z.pos m * 2 ^ 53) mod Z.pos m = 0)%Z).
  { rewrite Z.mul_comm. apply Z.mod_mul. lia. }
  unfold Z.div, Z.modulo in Hq, Hr.
  destruct (Z.div_eucl (Z.pos m * 2 ^ 53) (Z.pos m)) as [q r].
  cbn [fst snd] in Hq, Hr. subst q r.
  unfold new_location.
  destruct (Z.even (Z.pos m)).
  - unfold new_location_even. now rewrite Z.eqb_refl.
  - unfold new_location_odd. now rewrite Z.eqb_refl.
Qed.

Lemma float_div_abs_self (x m : float) :
  PrimFloat.abs x = m -> PrimFloat.is_finite m = true -> PrimFloat.is_zero m = false ->
  PrimFloat.abs (PrimFloat.div x m) = 1%float.
Proof.
  intros Hm Hfin Hz.
  rewrite <- (SF2Prim_Prim2SF (PrimFloat.abs (PrimFloat.div x m))).
  rewrite <- (SF2Prim_Prim2SF 1%float).
  f_equal. rewrite abs_spec, div_spec.
  assert (HM : Prim2SF m = SFabs (Prim2SF x)) by (now rewrite <- Hm, abs_spec).
  unfold PrimFloat.is_finite, PrimFloat.is_nan, PrimFloat.is_infinity, PrimFloat.is_zero in *.
  rewrite !eqb_spec in Hfin. rewrite eqb_spec in Hz. rewrite abs_spec in Hfin.
  rewrite HM in *.
  destruct (Prim2SF x) as [[|]|[|]| |sx mx ex]; try (vm_compute in Hfin; discriminate);
    try (vm_compute in Hz; discriminate).
  unfold SF64div. cbn [SFabs SFdiv]. rewrite SFdiv_core_self.
  destruct sx; vm_compute; reflexivity.
Qed.

(** A double is not finite when it is a NaN or an infinity. *)
Lemma is_finite_false (y : float) :
  (Prim2SF y = S754_nan \/ exists s, Prim2SF y = S754_infinity s) ->
  PrimFloat.is_finite y = false.
Proof.
  unfold PrimFloat.is_finite, PrimFloat.is_nan, PrimFloat.is_infinity.
  rewrite !eqb_spec, abs_spec.
  intros [H | [s H]]; rewrite H; [reflexivity | destruct s; reflexivity].
Qed.

Lemma is_zero_spec (t : float) :
  PrimFloat.is_zero t = true -> exists s, Prim2SF t = S754_zero s.
Proof.
  unfold PrimFloat.is_zero. rewrite eqb_spec.
  destruct (Prim2SF t) as [s|[|]| |[|] mx ex]; try (vm_compute; discriminate).
  intros _. now exists s.
Qed.

Lemma float_div_by_zero (x t : float) :
  PrimFloat.is_zero t = true -> PrimFloat.is_finite (PrimFloat.div x t) = false.
Proof.
  intros Ht. apply is_zero_spec in Ht. destruct Ht as [s Ht].
  apply is_finite_false. rewrite div_spec, Ht.
  destruct (Prim2SF x) as [sx|sx| |sx mx ex]; unfold SF64div; cbn [SFdiv]; eauto.
Qed.

(** An operation on a double that is not finite gives one that is not
    finite: on either side of a product, on the left of a sum, a difference
    and a quotient. *)
Lemma non_finite_spec (y : float) :
  PrimFloat.is_finite y = false ->
  Prim2SF y = S754_nan \/ exists s, Prim2SF y = S754_infinity s.
Proof.
  unfold PrimFloat.is_finite, PrimFloat.is_nan, PrimFloat.is_infinity.
  rewrite !eqb_spec, abs_spec.
  destruct (Prim2SF y) as [s|s| |s m e]; eauto; intros H; exfalso.
  - destruct s; vm_compute in H; discriminate.
  - unfold SFeqb in H. cbn [SFabs] in H.
    change (Prim2SF infinity) with (S754_infinity false) in H.
    cbn [SFcompare] in H. rewrite Z.compare_refl in H.
    change (PosDef.Pos.compare_cont Eq m m) with (Pos.compare m m) in H.
    rewrite Pos.compare_refl in H.
    destruct s; cbn in H; discriminate.
Qed.

Ltac non_finite H :=
  apply non_finite_spec in H; destruct H as [H | [? H]];
  apply is_finite_false;
  rewrite ?mul_spec, ?add_spec, ?sub_spec, ?div_spec, H;
  unfold SF64mul, SF64add, SF64sub, SF64div.

Lemma float_mul_non_finite_l (a b : float) :
  PrimFloat.is_finite a = false -> PrimFloat.is_finite (PrimFloat.mul a b) = false.
Proof.
  intros H. non_finite H; destruct (Prim2SF b) as [?|?| |? ? ?]; cbn [SFmul]; eauto.
Qed.

Lemma float_mul_non_finite_r (a b : float) :
  PrimFloat.is_finite b = false -> PrimFloat.is_finite (PrimFloat.mul a b) = false.
Proof.
  intros H. non_finite H; destruct (Prim2SF a) as [?|?| |? ? ?]; cbn [SFmul]; eauto.
Qed.

Lemma float_add_non_finite_l (a b : float) :
  PrimFloat.is_finite a = false -> PrimFloat.is_finite (PrimFloat.add a b) = false.
Proof.
  intros H. non_finite H; destruct (Prim2SF b) as [?|s| |? ? ?]; cbn [SFadd]; eauto;
    match goal with |- context [S754_infinity ?x] => destruct x end;
    try destruct s; eauto.
Qed.

Lemma float_sub_non_finite_l (a b : float) :
  PrimFloat.is_finite a = false -> PrimFloat.is_finite (PrimFloat.sub a b) = false.
Proof.
  intros H. non_finite H; destruct (Prim2SF b) as [?|s| |? ? ?]; cbn [SFsub]; eauto;
    match goal with |- context [S754_infinity ?x] => destruct x end;
    try destruct s; eauto.
Qed.

Lemma float_div_non_finite_l (a b : float) :
  PrimFloat.is_finite a = false -> PrimFloat.is_finite (PrimFloat.div a b) = false.
Proof.
  intros H. non_finite H; destruct (Prim2SF b) as [?|?| |? ? ?]; cbn [SFdiv]; eauto.
Qed.

(** *** IEEE division rounds no quotient of at most 1 above 1 *)

Section DivisionBound.

Local Open Scope Z_scope.

Lemma pow2_double (k : Z) : 0 < k -> 2 ^ k = 2 * 2 ^ (k - 1).
Proof.
  intros H. replace k with (Z.succ (k - 1)) at 1 by lia.
  rewrite Z.pow_succ_r by lia. reflexivity.
Qed.

Lemma shr_1_at_most_one (mrs : shr_record) (e : Z) :
  at_most_one mrs e -> e + 1 <= 0 -> at_most_one (shr_1 mrs) (e + 1).
Proof.
  intros (He & H0 & H) He1. unfold at_most_one.
  pose proof (@pow2_double (- e) ltac:(lia)) as P.
  replace (- e - 1) with (- (e + 1)) in P by lia.
  assert (0 < 2 ^ (- (e + 1))) by (apply Z.pow_pos_nonneg; lia).
  destruct mrs as [m r s]. cbn [shr_m shr_r shr_s] in *.
  destruct m as [|p|p]; [| |lia].
  - cbn. repeat split; try lia.
  - destruct p as [p|p|]; cbn [shr_1 shr_m shr_r shr_s]; (split; [lia|]); (split; [lia|]).
    + left. lia.
    + destruct H as [H|(H & -> & ->)]; [left; lia | right]. cbn. repeat split; lia.
    + left. lia.
Qed.

Lemma iter_shr_1_at_most_one (n : positive) :
  forall (mrs : shr_record) (e : Z),
    at_most_one mrs e -> e + Zpos n <= 0 ->
    at_most_one (iter_pos shr_1 n mrs) (e + Zpos n).
Proof.
  induction n as [n IH|n IH|]; intros mrs e H Hn; cbn [iter_pos].
  - replace (e + Z.pos n~1) with ((e + 1 + Z.pos n) + Z.pos n) by lia.
    apply IH; [apply IH; [apply shr_1_at_most_one; [exact H | lia] | lia] | lia].
  - replace (e + Z.pos n~0) with ((e + Z.pos n) + Z.pos n) by lia.
    apply IH; [apply IH; [exact H | lia] | lia].
  - apply shr_1_at_most_one; assumption.
Qed.

Lemma digits2_pos_bounds (p : positive) :
  2 ^ (Zpos (digits2_pos p) - 1) <= Zpos p < 2 ^ Zpos (digits2_pos p).
Proof.
  induction p as [p IH|p IH|]; cbn [digits2_pos]; [| |cbn; lia];
    rewrite Pos2Z.inj_succ;
    replace (Z.succ (Z.pos (digits2_pos p)) - 1) with (Z.pos (digits2_pos p)) by lia;
    rewrite Z.pow_succ_r by lia;
    rewrite (@pow2_double (Z.pos (digits2_pos p))) in * by lia; lia.
Qed.

Lemma Zdigits2_le (m k : Z) : 0 <= k -> 0 <= m <= 2 ^ k -> Zdigits2 m <= k + 1.
Proof.
  intros Hk [H0 H]. destruct m as [|p|p]; cbn [Zdigits2]; [lia| |lia].
  pose proof (digits2_pos_bounds p) as [B _].
  destruct (Z.le_gt_cases (Z.pos (digits2_pos p)) (k + 1)) as [L|G]; [exact L|].
  assert (2 ^ (k + 1) <= 2 ^ (Z.pos (digits2_pos p) - 1))
    by (apply Z.pow_le_mono_r; lia).
  rewrite Z.pow_add_r in * by lia. change (2 ^ 1) with 2 in *.
  assert (0 < 2 ^ k) by (apply Z.pow_pos_nonneg; lia). lia.
Qed.

Lemma at_most_one_le (mrs : shr_record) (e : Z) :
  at_most_one mrs e -> 0 <= shr_m mrs <= 2 ^ (- e).
Proof. intros (He & H0 & [H|(H & _)]); lia. Qed.

Lemma fexp_at_most_one (m e : Z) :
  0 <= m <= 2 ^ (- e) -> e <= 0 -> fexp prec emax (Zdigits2 m + e) <= -52.
Proof.
  intros H He. pose proof (@Zdigits2_le m (- e) ltac:(lia) H).
  unfold fexp, emin, prec, emax. lia.
Qed.

Lemma shr_fexp_at_most_one (m e : Z) (l : location) :
  at_most_one (shr_record_of_loc m l) e -> e <= -52 ->
  at_most_one (fst (shr_fexp prec emax m e l)) (snd (shr_fexp prec emax m e l)) /\
  snd (shr_fexp prec emax m e l) <= -52.
Proof.
  intros H He. unfold shr_fexp, shr.
  assert (Hm : shr_m (shr_record_of_loc m l) = m) by (destruct l as [|[]]; reflexivity).
  pose proof (at_most_one_le H) as B. rewrite Hm in B.
  pose proof (@fexp_at_most_one m e B ltac:(lia)) as Hf.
  destruct (fexp prec emax (Zdigits2 m + e) - e) as [|n|n] eqn:En; cbn [fst snd];
    try (split; assumption).
  assert (e + Z.pos n <= -52) by lia.
  split; [|assumption].
  apply iter_shr_1_at_most_one; [exact H | lia].
Qed.

Lemma round_at_most_one (mrs : shr_record) (e : Z) :
  at_most_one mrs e ->
  at_most_one
    (shr_record_of_loc (round_nearest_even (shr_m mrs) (loc_of_shr_record mrs)) loc_Exact)
    e.
Proof.
  intros (He & H0 & H). destruct mrs as [m [|] [|]]; cbn in *;
    unfold at_most_one; cbn [shr_m shr_r shr_s];
    (split; [exact He|]).
  - split; [lia|]. destruct H as [H|(_ & H & _)]; [|discriminate].
    destruct (Z_le_lt_eq_dec (m + 1) (2 ^ (- e)) ltac:(lia)); [left|right]; auto.
  - destruct (Z.even m); (split; [lia|]);
      (destruct H as [H|(_ & H & _)]; [|discriminate]).
    + left. exact H.
    + destruct (Z_le_lt_eq_dec (m + 1) (2 ^ (- e)) ltac:(lia)); [left|right]; auto.
  - split; [lia|]. destruct H as [H|(_ & _ & H)]; [|discriminate]. left. exact H.
  - split; [lia|]. destruct H as [H|(H & _)]; [left|right]; auto.
Qed.

Lemma binary_round_aux_at_most_one (sx : bool) (m e : Z) (l : location) :
  at_most_one (shr_record_of_loc m l) e -> e <= -52 ->
  key_le (SFkey (SFabs (binary_round_aux prec emax sx m e l)))
         (Some (1, -52, 2 ^ 52)).
Proof.
  intros H He. unfold binary_round_aux.
  destruct (@shr_fexp_at_most_one m e l H He) as [H1 He1].
  destruct (shr_fexp prec emax m e l) as [mrs1 e1]. cbn [fst snd] in *.
  pose proof (round_at_most_one H1) as H2.
  destruct (@shr_fexp_at_most_one _ e1 loc_Exact H2 He1) as [H3 He3].
  destruct (shr_fexp prec emax _ e1 loc_Exact) as [mrs2 e2]. cbn [fst snd] in *.
  pose proof (at_most_one_le H3) as [B0 B].
  destruct (shr_m mrs2) as [|p|p]; [cbn; lia| |lia].
  replace (e2 <=? emax - prec) with true
    by (symmetry; apply Z.leb_le; unfold emax, prec; lia).
  cbn [SFabs SFkey key_le].
  destruct (Z.eq_dec e2 (-52)) as [->|]; [|lia].
  right. split; [reflexivity|]. right. split; [reflexivity|]. exact B.
Qed.

Lemma canonical_digits (m : positive) (e : Z) :
  canonical_mantissa prec emax m e = true ->
  Zpos (digits2_pos m) <= 53 /\ (e = -1074 \/ Zpos (digits2_pos m) = 53) /\ -1074 <= e.
Proof.
  unfold canonical_mantissa. intros H. apply Z.eqb_eq in H.
  unfold fexp, emin, prec, emax in H. lia.
Qed.

Lemma digits2_pos_le (p q : positive) :
  Zpos p <= Zpos q -> Zpos (digits2_pos p) <= Zpos (digits2_pos q).
Proof.
  intros H. pose proof (digits2_pos_bounds p) as [Bp _].
  pose proof (digits2_pos_bounds q) as [_ Bq].
  destruct (Z.le_gt_cases (Z.pos (digits2_pos p)) (Z.pos (digits2_pos q))) as [L|G];
    [exact L|].
  assert (2 ^ Z.pos (digits2_pos q) <= 2 ^ (Z.pos (digits2_pos p) - 1))
    by (apply Z.pow_le_mono_r; lia).
  lia.
Qed.

Lemma new_location_exact (n : Z) : new_location n 0 = loc_Exact.
Proof.
  unfold new_location, new_location_even, new_location_odd.
  destruct (Z.even n); reflexivity.
Qed.

Lemma SFdiv_core_at_most_one (mx my : positive) (ex ey : Z) :
  canonical_mantissa prec emax mx ex = true ->
  canonical_mantissa prec emax my ey = true ->
  ex < ey \/ (ex = ey /\ Zpos mx <= Zpos my) ->
  forall q e' l,
    SFdiv_core_binary prec emax (Zpos mx) ex (Zpos my) ey = (q, e', l) ->
    at_most_one (shr_record_of_loc q l) e' /\ e' <= -52.
Proof.
  intros Cx Cy Hle q e' l.
  destruct (@canonical_digits mx ex Cx) as (Dx & Nx & Ex).
  destruct (@canonical_digits my ey Cy) as (Dy & Ny & Ey).
  pose proof (digits2_pos_bounds mx) as [Lx Ux].
  pose proof (digits2_pos_bounds my) as [Ly Uy].
  unfold SFdiv_core_binary. cbn [Zdigits2].
  set (d1 := Z.pos (digits2_pos mx)) in *.
  set (d2 := Z.pos (digits2_pos my)) in *.
  assert (Hd : d1 + ex <= d2 + ey).
  { destruct Hle as [H|[-> H]]; [lia|].
    pose proof (@digits2_pos_le mx my H) as HH. change (d1 <= d2) in HH. lia. }
  set (e0 := Z.min (fexp prec emax (d1 + ex - (d2 + ey))) (ex - ey)).
  assert (He0 : e0 <= -53 /\ e0 <= ex - ey).
  { subst e0. unfold fexp, emin, prec, emax. lia. }
  set (s := ex - ey - e0).
  assert (Hs : 0 <= s) by (subst s; lia).
  set (m' := match s with Z.pos _ => Z.shiftl (Z.pos mx) s | 0 => Z.pos mx | Z.neg _ => 0 end).
  assert (Hm' : m' = Z.pos mx * 2 ^ s).
  { subst m'. destruct s as [|p|p] eqn:Es; [cbn; lia| |lia].
    apply Z.shiftl_mul_pow2. lia. }
  assert (P53 : 2 ^ 53 = 2 * 2 ^ 52) by reflexivity.
  assert (Hb : m' <= Z.pos my * 2 ^ (- e0)).
  { rewrite Hm'. destruct Hle as [H|[E H]].
    - replace (- e0) with (s + (ey - ex)) by (subst s; lia).
      rewrite Z.pow_add_r by lia.
      assert (0 < 2 ^ s) by (apply Z.pow_pos_nonneg; lia).
      assert (2 ^ 1 <= 2 ^ (ey - ex)) by (apply Z.pow_le_mono_r; lia).
      change (2 ^ 1) with 2 in *.
      assert (d2 = 53) by lia.
      assert (2 ^ d1 <= 2 ^ 53) by (apply Z.pow_le_mono_r; lia).
      assert (2 ^ 52 <= Z.pos my) by (replace 52 with (d2 - 1) by lia; exact Ly).
      assert (Z.pos mx <= Z.pos my * 2 ^ (ey - ex)) by nia.
      rewrite (Z.mul_comm (2 ^ s)), Z.mul_assoc.
      apply Z.mul_le_mono_nonneg_r; lia.
    - replace (- e0) with s by (subst s; lia).
      apply Z.mul_le_mono_nonneg_r; [apply Z.pow_nonneg; lia | exact H]. }
  assert (Hm0 : 0 <= m').
  { rewrite Hm'. apply Z.mul_nonneg_nonneg; [lia | apply Z.pow_nonneg; lia]. }
  pose proof (Z.div_eucl_eq m' (Z.pos my) ltac:(lia)) as Hdiv.
  pose proof (Z.mod_pos_bound m' (Z.pos my) ltac:(lia)) as Hr.
  unfold Z.modulo in Hr.
  destruct (Z.div_eucl m' (Z.pos my)) as [q0 r0].
  intros [= <- <- <-].
  split; [|lia].
  assert (K : 0 < 2 ^ (- e0)) by (apply Z.pow_pos_nonneg; lia).
  assert (Hq0 : 0 <= q0) by nia.
  assert (Hq : q0 <= 2 ^ (- e0)) by nia.
  unfold at_most_one.
  assert (Em : forall l, shr_m (shr_record_of_loc q0 l) = q0)
    by (intros [|[]]; reflexivity).
  rewrite Em. split; [lia|]. split; [exact Hq0|].
  destruct (Z_le_lt_eq_dec _ _ Hq) as [Hlt|Heq]; [left; exact Hlt|].
  right. assert (r0 = 0) by nia. subst r0.
  rewrite new_location_exact. cbn. auto.
Qed.

Lemma SFdiv_at_most_one (X M : spec_float) :
  valid_binary X = true -> valid_binary M = true ->
  (exists my ey, M = S754_finite false my ey) ->
  key_le (SFkey (SFabs X)) (SFkey M) ->
  key_le (SFkey (SFabs (SFdiv prec emax X M))) (Some (1, -52, 2 ^ 52)).
Proof.
  intros VX VM (my & ey & ->) Hle.
  destruct X as [sx|sx| |sx mx ex]; cbn [SFabs SFkey key_le] in Hle; try lia.
  - cbn. lia.
  - cbn [SFdiv].
    cbn [valid_binary] in VX, VM. unfold bounded in VX, VM.
    apply andb_true_iff in VX, VM. destruct VX as [Cx _]. destruct VM as [Cy _].
    destruct (SFdiv_core_binary prec emax (Z.pos mx) ex (Z.pos my) ey)
      as [[q e'] l] eqn:E.
    destruct (@SFdiv_core_at_most_one mx my ex ey Cx Cy ltac:(lia) q e' l E) as [H He].
    apply binary_round_aux_at_most_one; assumption.
Qed.

Lemma is_finite_true (y : float) :
  PrimFloat.is_finite y = true ->
  (exists s, Prim2SF y = S754_zero s) \/ (exists s m e, Prim2SF y = S754_finite s m e).
Proof.
  intros H. destruct (Prim2SF y) as [s|s| |s m e] eqn:E; eauto.
  - rewrite is_finite_false in H by eauto. discriminate.
  - rewrite is_finite_false in H by eauto. discriminate.
Qed.

Lemma is_zero_true (t : float) (s : bool) :
  Prim2SF t = S754_zero s -> PrimFloat.is_zero t = true.
Proof.
  intros H. unfold PrimFloat.is_zero. rewrite eqb_spec, H. reflexivity.
Qed.

Lemma float_abs_finite (y : float) :
  PrimFloat.is_finite y = true -> PrimFloat.is_finite (PrimFloat.abs y) = true.
Proof.
  intros H. destruct (PrimFloat.is_finite (PrimFloat.abs y)) eqn:E; [reflexivity|].
  apply non_finite_spec in E. rewrite abs_spec in E.
  destruct (is_finite_true y H) as [[s Hs]|[s [m [e Hs]]]]; rewrite Hs in E;
    destruct E as [E|[? E]]; discriminate.
Qed.

(** The quotient of a double by a finite double that is not zero and at
    least as large in absolute value is at most 1 in absolute value. *)
Lemma float_div_le_one (x y m : float) :
  PrimFloat.abs y = m ->
  PrimFloat.is_finite m = true -> PrimFloat.is_zero m = false ->
  PrimFloat.leb (PrimFloat.abs x) m = true ->
  PrimFloat.leb (PrimFloat.abs (PrimFloat.div x m)) 1%float = true.
Proof.
  intros Hm Hfin Hnz Hle.
  rewrite leb_spec, SFleb_key_le, abs_spec in *. rewrite div_spec.
  change (SFkey (Prim2SF 1)) with (Some (1, -52, 2 ^ 52)%Z).
  apply SFdiv_at_most_one; try apply Prim2SF_valid; [|exact Hle].
  assert (HM : Prim2SF m = SFabs (Prim2SF y)) by (now rewrite <- Hm, abs_spec).
  destruct (is_finite_true m Hfin) as [[s Hs]|[s [mm [e Hs]]]].
  - rewrite (is_zero_true m Hs) in Hnz. discriminate.
  - rewrite Hs in HM. destruct (Prim2SF y) as [?|?| |? ? ?]; try discriminate.
    injection HM as -> -> ->. eauto.
Qed.

(** The only double that is both at most and at least 1 is 1. *)
Lemma float_leb_antisym_one (e : float) :
  PrimFloat.leb e 1%float = true -> PrimFloat.leb 1%float e = true -> e = 1%float.
Proof.
  rewrite !leb_spec, !SFleb_key_le.
  change (SFkey (Prim2SF 1)) with (Some (1, -52, 2 ^ 52)%Z).
  intros H1 H2. apply Prim2SF_inj.
  change (Prim2SF 1) with (S754_finite false 4503599627370496 (-52)).
  destruct (Prim2SF e) as [s|[|]| |[|] m ex]; cbn [SFkey key_le] in H1, H2; try lia.
  assert (ex = (-52)%Z) by lia. assert (Z.pos m = Z.pos 4503599627370496) by lia.
  congruence.
Qed.

(** A double bounded in absolute value by a zero is a zero. *)
Lemma float_le_zero (p m : float) :
  PrimFloat.leb (PrimFloat.abs p) m = true -> PrimFloat.is_zero m = true ->
  PrimFloat.is_zero p = true.
Proof.
  rewrite leb_spec, SFleb_key_le, abs_spec. intros H Hz.
  apply is_zero_spec in Hz. destruct Hz as [s Hs]. rewrite Hs in H.
  destruct (Prim2SF p) as [sp|[|]| |[|] mp ep] eqn:E; cbn [SFabs SFkey key_le] in H;
    try lia.
  eapply is_zero_true. exact E.
Qed.

Lemma float_finite_not_nan (y : float) :
  PrimFloat.is_finite y = true -> PrimFloat.is_nan y = false.
Proof.
  unfold PrimFloat.is_finite. destruct (PrimFloat.is_nan y); [discriminate|reflexivity].
Qed.

End DivisionBound.

(** *** The rationals are exact *)

Lemma Qc_lit_0 : (lit 0 0 : Qc) = Q2Qc 0.
Proof. apply Qc_is_canon. reflexivity. Qed.

Lemma Qc_lit_1 : (lit 1 0 : Qc) = Q2Qc 1.
Proof. apply Qc_is_canon. reflexivity. Qed.

Lemma qleb_Qcle (x y : Qc) : Rat.qleb x y = true <-> (x <= y)%Qc.
Proof. unfold Rat.qleb, Qcle. apply Qle_bool_iff. Qed.

Lemma Qcinv_nonneg (m : Qc) : (Q2Qc 0 <= m)%Qc -> (Q2Qc 0 <= / m)%Qc.
Proof.
  unfold Qcle. intros H. simpl in *.
  rewrite Qred_correct. apply Qinv_le_0_compat. exact H.
Qed.

#[export] Instance Qc_Ordered : Ordered Qc.
Proof.
  split; simpl.
  - intros a b H. rewrite H. reflexivity.
  - intros a. replace (Rat.qleb a a) with true; [reflexivity|].
    symmetry. apply qleb_Qcle. apply Qcle_refl.
Qed.

#[export] Instance Qc_Exact : Exact Qc.
Proof.
  split; simpl; try rewrite Qc_lit_0; try rewrite Qc_lit_1.
  - reflexivity.
  - intros a b. rewrite !qleb_Qcle.
    destruct (Qclt_le_dec a b) as [H|H]; [left; apply Qclt_le_weak|right]; exact H.
  - intros a b. rewrite !qleb_Qcle. apply Qcle_antisym.
  - intros a b c. rewrite !qleb_Qcle. apply Qcle_trans.
  - intros x. apply qleb_Qcle. apply Qcabs_nonneg.
  - intros x. apply Qcabs_null.
  - intros x m. rewrite qleb_Qcle. intros Hm.
    unfold Qcdiv. rewrite Qcabs_Qcmult.
    rewrite (Qcabs_pos (/ m)); [reflexivity|]. apply Qcinv_nonneg. exact Hm.
  - intros a b m. rewrite !qleb_Qcle. intros Hab Hm.
    unfold Qcdiv. apply Qcmult_le_compat_r; [exact Hab|].
    apply Qcinv_nonneg. exact Hm.
  - intros m Hm. unfold Qcdiv. apply Qcmult_inv_r. exact Hm.
Qed.

(** Exact arithmetic is comparable: there is no NaN. *)
Lemma Exact_Comparable (F : Type) (NumF : Num F) : Exact F -> Comparable F.
Proof.
  intros E. split.
  - intros a b _ _. apply leb_total.
  - apply leb_trans.
  - intros a b H. rewrite never_nan in H. discriminate.
  - intros a b H. rewrite never_nan in H. discriminate.
  - intros a. now rewrite !never_nan.
Qed.

#[export] Instance Qc_Comparable : Comparable Qc := Exact_Comparable Qc_Exact.

(** ** Facts about the numpy reductions *)

Section NumpyFacts.

Context {F : Type} {NumF : Num F}.

Local Open Scope num_scope.

(** Taking the positions where a condition holds, from an array at least
    as long as the condition: [pre] is the part of the array before the
    condition's head. *)
Lemma np_index_nonzero_from {A : Type} (f : A -> bool) (ts : list A) :
  forall (xs pre : list F),
    (List.length ts <= List.length xs)%nat ->
    np_index (pre ++ xs) (nonzero_from (List.length pre) (map f ts))
    = Returns (map snd (filter (fun p => f (fst p)) (combine ts xs))).
Proof.
  induction ts as [|t ts IH]; intros xs pre H; simpl; try reflexivity.
  destruct xs as [|x xs]; simpl in H; [lia|].
  assert (E : np_index (pre ++ x :: xs) (nonzero_from (S (List.length pre)) (map f ts))
              = Returns (map snd (filter (fun p => f (fst p)) (combine ts xs)))).
  { specialize (IH xs (pre ++ [x])).
    rewrite <- app_assoc, length_app, Nat.add_comm in IH. apply IH. lia. }
  destruct (f t) eqn:Et; simpl; rewrite ?Et; simpl; [|exact E].
  rewrite E, nth_error_app2, Nat.sub_diag by lia. reflexivity.
Qed.

Lemma np_extract_map {A : Type} (f : A -> bool) (ts : list A) (xs : list F) :
  (List.length ts <= List.length xs)%nat ->
  np_extract (map f ts) xs
  = Returns (map snd (filter (fun p => f (fst p)) (combine ts xs))).
Proof. intros H. exact (np_index_nonzero_from f ts xs [] H). Qed.

Lemma filter_combine_self {A : Type} (f : A -> bool) (ts : list A) :
  map snd (filter (fun p => f (fst p)) (combine ts ts)) = filter f ts.
Proof.
  induction ts as [|t ts IH]; simpl; try reflexivity.
  destruct (f t); simpl; rewrite IH; reflexivity.
Qed.

(** Extracting from the array the condition was computed on never raises. *)
Lemma np_extract_self (f : F -> bool) (ts : list F) :
  np_extract (map f ts) ts = Returns (filter f ts).
Proof. rewrite np_extract_map by lia. now rewrite filter_combine_self. Qed.

Lemma filter_combine_fst {A B : Type} (f : A -> bool) (ts : list A) (xs : list B) :
  List.length ts = List.length xs ->
  map fst (filter (fun p => f (fst p)) (combine ts xs)) = filter f ts.
Proof.
  revert xs.
  induction ts as [|t ts IH]; intros [|x xs] H; simpl in *; try discriminate;
    try reflexivity.
  injection H as H. destruct (f t); simpl; rewrite (IH _ H); reflexivity.
Qed.

Lemma maximum_cases (a b : F) : maximum a b = a \/ maximum a b = b.
Proof. unfold maximum. destruct (isnan a || (b <=? a)); auto. Qed.

Lemma minimum_cases (a b : F) : minimum a b = a \/ minimum a b = b.
Proof. unfold minimum. destruct (isnan a || (a <=? b)); auto. Qed.

(** A reduction by a function that returns one of its arguments returns an
    element of the array. *)
Lemma fold_select_In (f : F -> F -> F) :
  (forall a b, f a b = a \/ f a b = b) ->
  forall (r : list F) (x : F), In (fold_left f r x) (x :: r).
Proof.
  intros Hf. induction r as [|y r IH]; intros x; simpl.
  - left. reflexivity.
  - destruct (IH (f x y)) as [H|H].
    + rewrite <- H. destruct (Hf x y) as [E|E]; rewrite E; auto.
    + right. right. exact H.
Qed.

Lemma np_max_returns (a : list F) :
  a <> [] -> exists m, np_max a = Returns m /\ In m a.
Proof.
  destruct a as [|x r]; [congruence|]. intros _.
  exists (fold_left maximum r x). split; [reflexivity|].
  apply fold_select_In. exact maximum_cases.
Qed.

Lemma np_min_returns (a : list F) :
  a <> [] -> exists m, np_min a = Returns m /\ In m a.
Proof.
  destruct a as [|x r]; [congruence|]. intros _.
  exists (fold_left minimum r x). split; [reflexivity|].
  apply fold_select_In. exact minimum_cases.
Qed.

Section ExactFacts.

Context {ExactF : Exact F}.

Lemma leb_refl (a : F) : (a <=? a) = true.
Proof. destruct (leb_total a a); assumption. Qed.

Lemma maximum_upper (a b : F) :
  (a <=? maximum a b) = true /\ (b <=? maximum a b) = true.
Proof.
  unfold maximum. rewrite never_nan. simpl.
  destruct (b <=? a) eqn:E.
  - split; [apply leb_refl | exact E].
  - split; [|apply leb_refl].
    destruct (leb_total a b) as [H|H]; [exact H | congruence].
Qed.

Lemma fold_maximum_upper (r : list F) (x y : F) :
  In y (x :: r) -> (y <=? fold_left maximum r x) = true.
Proof.
  revert x y. induction r as [|z r IH]; intros x y Hy; simpl in *.
  - destruct Hy as [<-|[]]. apply leb_refl.
  - destruct (maximum_upper x z) as [Hx Hz].
    destruct Hy as [<-|[<-|Hy]].
    + eapply leb_trans; [exact Hx|]. apply IH. left. reflexivity.
    + eapply leb_trans; [exact Hz|]. apply IH. left. reflexivity.
    + apply IH. right. exact Hy.
Qed.

(** The maximum of a non-empty array is its one element that bounds the
    others. *)
Lemma np_max_unique (a : list F) (m : F) :
  In m a -> (forall y, In y a -> (y <=? m) = true) -> np_max a = Returns m.
Proof.
  intros Hm Hub.
  destruct a as [|x r]; [destruct Hm|]. simpl. f_equal.
  apply leb_antisym.
  - apply Hub. apply fold_select_In. exact maximum_cases.
  - apply fold_maximum_upper. exact Hm.
Qed.

End ExactFacts.

(** *** The reductions on numbers that compare *)

Section ComparableFacts.

Context {CmpF : Comparable F}.

Lemma cmp_refl (a : F) : isnan a = false -> (a <=? a) = true.
Proof. intros H. destruct (cmp_total a a H H); assumption. Qed.

Lemma maximum_bounds (a b : F) :
  isnan a = false -> isnan b = false ->
  isnan (maximum a b) = false /\
  (a <=? maximum a b) = true /\ (b <=? maximum a b) = true.
Proof.
  intros Ha Hb. unfold maximum. rewrite Ha. simpl.
  destruct (b <=? a) eqn:E.
  - repeat split; [exact Ha | now apply cmp_refl | exact E].
  - repeat split; [exact Hb | | now apply cmp_refl].
    destruct (cmp_total a b Ha Hb) as [H|H]; [exact H | congruence].
Qed.


Lemma fold_maximum_bounds (r : list F) :
  forall x : F,
    (forall y, In y (x :: r) -> isnan y = false) ->
    forall y, In y (x :: r) -> (y <=? fold_left maximum r x) = true.
Proof.
  induction r as [|z r IH]; intros x Hn y Hy; simpl in *.
  - destruct Hy as [<-|[]]. apply cmp_refl. apply Hn. now left.
  - destruct (maximum_bounds x z) as (Hm & Hx & Hz); [apply Hn; auto ..|].
    assert (Hn' : forall y, maximum x z = y \/ In y r -> isnan y = false).
    { intros w [<-|Hw]; [exact Hm | apply Hn; auto]. }
    destruct Hy as [<-|[<-|Hy]].
    + eapply cmp_trans; [exact Hx|]. apply IH; auto.
    + eapply cmp_trans; [exact Hz|]. apply IH; auto.
    + apply IH; auto.
Qed.


(** The maximum of numbers none of which is a NaN is an upper bound of
    them all, the minimum a lower bound. *)
Lemma np_max_bounds (a : list F) (m : F) :
  (forall y, In y a -> isnan y = false) ->
  np_max a = Returns m -> forall y, In y a -> (y <=? m) = true.
Proof.
  destruct a as [|x r]; simpl; [discriminate|].
  intros Hn [= <-] y Hy. now apply fold_maximum_bounds.
Qed.


(** A NaN in the array is what the reduction returns. *)
Lemma fold_maximum_nan (r : list F) :
  forall x : F,
    (exists y, In y (x :: r) /\ isnan y = true) ->
    isnan (fold_left maximum r x) = true.
Proof.
  induction r as [|z r IH]; intros x (y & Hy & Hn); simpl in *.
  - destruct Hy as [<-|[]]. exact Hn.
  - apply IH. unfold maximum.
    destruct (isnan x) eqn:Ex; simpl.
    + exists x. split; [now left | exact Ex].
    + destruct Hy as [<-|[<-|Hy]]; [congruence | | ].
      * rewrite (nan_leb_l _ x Hn). exists z. split; [now left | exact Hn].
      * exists y. split; [now right | exact Hn].
Qed.


Lemma np_max_nan (a : list F) (m y : F) :
  np_max a = Returns m -> In y a -> isnan y = true -> isnan m = true.
Proof.
  destruct a as [|x r]; simpl; [discriminate|].
  intros [= <-] Hy Hn. apply fold_maximum_nan. eauto.
Qed.


End ComparableFacts.

(** *** The depth of the pairwise summation *)

Lemma pairwise_sum_S (fuel : nat) (a : list F) :
  pairwise_sum (S fuel) a =
  let n := List.length a in
  if (n <? 8)%nat then fold_left add a (lit 0 0)
  else if (n <=? 128)%nat then
    match a with
    | a0 :: a1 :: a2 :: a3 :: a4 :: a5 :: a6 :: a7 :: rest =>
        unrolled a0 a1 a2 a3 a4 a5 a6 a7 rest
    | _ => fold_left add a (lit 0 0)
    end
  else
    let n2 := (n / 2 - (n / 2) mod 8)%nat in
    pairwise_sum fuel (firstn n2 a) + pairwise_sum fuel (skipn n2 a).
Proof. reflexivity. Qed.

Lemma pairwise_sum_O (a : list F) :
  (List.length a <= 128)%nat -> forall fuel, pairwise_sum fuel a = pairwise_sum 0 a.
Proof.
  intros H [|fuel]; [reflexivity|]. rewrite pairwise_sum_S. simpl.
  unfold pairwise_sum.
  destruct (List.length a <? 8)%nat; [reflexivity|].
  apply Nat.leb_le in H. rewrite H. reflexivity.
Qed.

Lemma split_point (n : nat) :
  (128 < n)%nat ->
  (0 < n / 2 - (n / 2) mod 8 < n)%nat.
Proof.
  intros H.
  pose proof (Nat.mod_upper_bound (n / 2) 8 ltac:(lia)).
  pose proof (Nat.Div0.mul_div_le n 2).
  assert (64 <= n / 2)%nat by (apply Nat.div_le_lower_bound; lia).
  lia.
Qed.

(** The splitting ends before the fuel does: with the array's length, or
    more, the sum is the same. *)
Lemma pairwise_sum_fuel (f1 : nat) :
  forall (f2 : nat) (a : list F),
    (List.length a <= f1)%nat -> (List.length a <= f2)%nat ->
    pairwise_sum f1 a = pairwise_sum f2 a.
Proof.
  induction f1 as [|f1 IH]; intros f2 a H1 H2.
  - symmetry. apply pairwise_sum_O. lia.
  - destruct f2 as [|f2]; [apply pairwise_sum_O; lia|].
    rewrite !pairwise_sum_S. cbv zeta.
    destruct (List.length a <? 8)%nat; [reflexivity|].
    destruct (List.length a <=? 128)%nat eqn:E; [reflexivity|].
    apply Nat.leb_gt in E. pose proof (split_point E) as Hs.
    f_equal; apply IH;
      rewrite ?length_firstn, ?length_skipn; lia.
Qed.

End NumpyFacts.

(** ** The window: moving a bound, extracting the normalised segment *)

Section WindowFacts.

Context {F : Type} {NumF : Num F}.

Local Open Scope num_scope.

Lemma picked_times_window (self : Signal.t F) :
  np_extract
    (map (fun x => (Signal.start self <=? x) && (x <=? Signal.finish self))
         (Signal.times self))
    (Signal.times self)
  = Returns (filter (fun x => (Signal.start self <=? x) && (x <=? Signal.finish self))
                    (Signal.times self)).
Proof. apply np_extract_self. Qed.

Lemma picked_signal_window (self : Signal.t F) :
  List.length (Signal.times self) = List.length (Signal.signal self) ->
  np_extract
    (map (fun x => (Signal.start self <=? x) && (x <=? Signal.finish self))
         (Signal.times self))
    (Signal.signal self)
  = Returns (map snd (window_samples self)).
Proof.
  intros Hlen. unfold window_samples.
  apply (np_extract_map
           (fun x => (Signal.start self <=? x) && (x <=? Signal.finish self))).
  rewrite Hlen. apply Nat.le_refl.
Qed.

Lemma get_picked_data_unfold (self : Signal.t F) :
  List.length (Signal.times self) = List.length (Signal.signal self) ->
  Signal.get_picked_data self =
  try absmax := np_max (np_abs (map snd (window_samples self))) in
  Returns (filter (fun x => (Signal.start self <=? x) && (x <=? Signal.finish self))
                  (Signal.times self),
           map (fun p => snd p / absmax) (window_samples self)).
Proof.
  intros Hlen. unfold Signal.get_picked_data.
  rewrite picked_times_window, (picked_signal_window self Hlen). cbn [obind].
  destruct (np_max (np_abs (map snd (window_samples self)))) as [m|e]; simpl;
    [|reflexivity].
  rewrite map_map. reflexivity.
Qed.

(** Whatever the amplitudes are, the picked times are the times of the
    window. *)
Lemma get_picked_data_times (self : Signal.t F) (ts xs : list F) :
  Signal.get_picked_data self = Returns (ts, xs) ->
  ts = filter (fun x => (Signal.start self <=? x) && (x <=? Signal.finish self))
              (Signal.times self).
Proof.
  unfold Signal.get_picked_data. rewrite picked_times_window. cbn [obind].
  destruct (np_extract _ (Signal.signal self)) as [sg|e]; cbn [obind];
    [|discriminate].
  destruct (np_max (np_abs sg)) as [m|e]; cbn [obind]; [|discriminate].
  intros [= <- _]. reflexivity.
Qed.

Lemma window_times (self : Signal.t F) :
  List.length (Signal.times self) = List.length (Signal.signal self) ->
  map fst (window_samples self)
  = filter (fun x => (Signal.start self <=? x) && (x <=? Signal.finish self))
           (Signal.times self).
Proof.
  intros Hlen. unfold window_samples.
  apply (filter_combine_fst
           (fun x => (Signal.start self <=? x) && (x <=? Signal.finish self))).
  exact Hlen.
Qed.

Lemma get_picked_data_on_range (self : Signal.t F) :
  List.length (Signal.times self) = List.length (Signal.signal self) ->
  window_samples self <> [] ->
  exists absmax,
    np_max (np_abs (map snd (window_samples self))) = Returns absmax /\
    In absmax (np_abs (map snd (window_samples self))) /\
    Signal.get_picked_data self =
    Returns (filter (fun x => (Signal.start self <=? x) && (x <=? Signal.finish self))
                    (Signal.times self),
             map (fun p => snd p / absmax) (window_samples self)).
Proof.
  intros Hlen Hne. rewrite (get_picked_data_unfold self Hlen).
  destruct (np_max_returns (a := np_abs (map snd (window_samples self))))
    as [m [Hm Hin]].
  - unfold np_abs. destruct (window_samples self); [congruence|discriminate].
  - exists m. rewrite Hm. repeat split; assumption.
Qed.

(** C5.  Moving a bound to the value [v]: when [v] is strictly nearer to
    [start] than to [finish] the new bounds are [(v, finish)]; when it is at
    least as far from [start] as from [finish], a tie included, they are
    [(start, v)]. *)
Theorem move_line_moves_nearest_bound {OrdF : Ordered F}
  (self : Signal.t F) (a : axes) (v : F) :
  let r := Signal.move_line (Signal.Build_MouseEvent a (Some v)) self in
  let to_start := abs (v - Signal.start self) in
  let to_finish := abs (v - Signal.finish self) in
  fst r = Returns tt /\
  ((to_start <? to_finish) = true -> bounds (snd r) = (v, Signal.finish self)) /\
  ((to_finish <=? to_start) = true -> bounds (snd r) = (Signal.start self, v)) /\
  (to_start = to_finish -> bounds (snd r) = (Signal.start self, v)).
Proof.
  intros r to_start to_finish. subst r. unfold Signal.move_line. simpl.
  fold to_start to_finish.
  destruct (to_start <? to_finish) eqn:E; simpl.
  - repeat split; try reflexivity.
    + intros H. apply ge_not_lt in H. congruence.
    + intros H. rewrite H, lt_irrefl in E. discriminate.
  - repeat split; try reflexivity. discriminate.
Qed.

(** C3, as the code has it.  For a signal with as many amplitudes as times
    (the two rows of a loaded table): the extraction raises exactly when the
    filtered range is empty (numpy's reduction of an empty array, a
    [ValueError]); on a non-empty range it returns the samples of the range,
    every amplitude divided by the maximum absolute amplitude, whether that
    maximum is zero or not. *)
Theorem get_picked_data_raises_iff_empty (self : Signal.t F) :
  List.length (Signal.times self) = List.length (Signal.signal self) ->
  (window_samples self = [] <-> Signal.get_picked_data self = Raises ValueError) /\
  (window_samples self <> [] ->
   exists absmax,
     np_max (np_abs (map snd (window_samples self))) = Returns absmax /\
     Signal.get_picked_data self =
     Returns (filter (fun x => (Signal.start self <=? x) && (x <=? Signal.finish self))
                     (Signal.times self),
              map (fun p => snd p / absmax) (window_samples self))).
Proof.
  intros Hlen.
  assert (Hret : window_samples self <> [] ->
     exists absmax,
       np_max (np_abs (map snd (window_samples self))) = Returns absmax /\
       Signal.get_picked_data self =
       Returns (filter (fun x => (Signal.start self <=? x) && (x <=? Signal.finish self))
                       (Signal.times self),
                map (fun p => snd p / absmax) (window_samples self))).
  { intros Hne.
    destruct (get_picked_data_on_range self Hlen Hne) as [m [Hm [_ Hget]]].
    exists m. split; assumption. }
  split; [split|exact Hret].
  - intros E. rewrite (get_picked_data_unfold self Hlen), E. reflexivity.
  - intros Hraise. destruct (window_samples self) as [|p w] eqn:E; [reflexivity|].
    destruct Hret as [m [_ Hget]]; [discriminate|]. congruence.
Qed.

Section ComparableWindow.

Context {CmpF : Comparable F}.

(** With no NaN among the amplitudes of the range, the divisor bounds the
    absolute value of every one of them. *)
Lemma absmax_bounds (self : Signal.t F) (absmax : F) :
  np_max (np_abs (map snd (window_samples self))) = Returns absmax ->
  (forall p, In p (window_samples self) -> isnan (snd p) = false) ->
  forall p, In p (window_samples self) -> (abs (snd p) <=? absmax) = true.
Proof.
  intros Hm Hn p Hp. eapply np_max_bounds; [|exact Hm|].
  - intros y Hy. unfold np_abs in Hy. rewrite map_map in Hy.
    apply in_map_iff in Hy. destruct Hy as [q [<- Hq]].
    rewrite nan_abs. now apply Hn.
  - unfold np_abs. rewrite map_map.
    apply (in_map (fun q => abs (snd q))). exact Hp.
Qed.

(** A NaN among the amplitudes of the range is what they are all divided
    by. *)
Lemma absmax_nan (self : Signal.t F) (absmax : F) :
  np_max (np_abs (map snd (window_samples self))) = Returns absmax ->
  (exists p, In p (window_samples self) /\ isnan (snd p) = true) ->
  isnan absmax = true.
Proof.
  intros Hm [p [Hp Hn]]. eapply np_max_nan; [exact Hm| |].
  - unfold np_abs. rewrite map_map.
    apply (in_map (fun q => abs (snd q))). exact Hp.
  - rewrite nan_abs. exact Hn.
Qed.

End ComparableWindow.

Section ExactWindow.

Context {ExactF : Exact F}.

Lemma np_max_upper (a : list F) (m y : F) :
  np_max a = Returns m -> In y a -> (y <=? m) = true.
Proof.
  destruct a as [|x r]; simpl; [discriminate|].
  intros [= <-]. apply fold_maximum_upper.
Qed.

(** Dividing non-negative numbers by their maximum makes the maximum one. *)
Lemma np_max_scaled (a : list F) (m : F) :
  np_max a = Returns m -> In m a -> (lit 0 0 <=? m) = true -> m <> lit 0 0 ->
  np_max (map (fun y => y / m) a) = Returns (lit 1 0).
Proof.
  intros Hmax Hin Hpos Hnz. apply np_max_unique.
  - rewrite <- (div_self Hnz). apply (in_map (fun y => y / m)). exact Hin.
  - intros y Hy. apply in_map_iff in Hy. destruct Hy as [y0 [<- Hy0]].
    rewrite <- (div_self Hnz). apply div_mono; [|exact Hpos].
    eapply np_max_upper; eassumption.
Qed.

(** In exact arithmetic the greatest absolute amplitude of the result
    is 1. *)
Lemma get_picked_data_exact (self : Signal.t F) :
  List.length (Signal.times self) = List.length (Signal.signal self) ->
  (exists p, In p (window_samples self) /\ snd p <> lit 0 0) ->
  exists picked,
    Signal.get_picked_data self = Returns picked /\
    np_max (np_abs (snd picked)) = Returns (lit 1 0).
Proof.
  intros Hlen [p [Hp Hnz]].
  destruct (get_picked_data_on_range self Hlen) as [m [Hm [Hin Hget]]].
  - intros E. rewrite E in Hp. destruct Hp.
  - eexists. split; [exact Hget|]. simpl.
    assert (Hpos : (lit 0 0 <=? m) = true).
    { unfold np_abs in Hin. apply in_map_iff in Hin.
      destruct Hin as [x [<- _]]. apply abs_nonneg. }
    assert (Hm0 : m <> lit 0 0).
    { intros E. apply Hnz. apply abs_zero. apply leb_antisym.
      - rewrite <- E. eapply np_max_upper; [exact Hm|].
        unfold np_abs. apply in_map. apply (in_map snd) in Hp. exact Hp.
      - apply abs_nonneg. }
    rewrite <- (np_max_scaled _ Hm Hin Hpos Hm0). f_equal.
    unfold np_abs. rewrite !map_map. apply map_ext.
    intros q. apply abs_div. exact Hpos.
Qed.

End ExactWindow.

End WindowFacts.

(** On doubles, a sample whose absolute amplitude is the divisor becomes 1
    or -1 exactly, when the divisor is finite and not zero. *)
Lemma greatest_amplitude_becomes_one (self : Signal.t float) (absmax : float) :
  np_max (np_abs (map snd (window_samples self))) = Returns absmax ->
  PrimFloat.is_finite absmax = true -> PrimFloat.is_zero absmax = false ->
  exists p, In p (window_samples self) /\
            abs (snd p) = absmax /\ abs (snd p / absmax)%num = 1%float.
Proof.
  intros Hm Hfin Hnz.
  destruct (window_samples self) as [|q w] eqn:E; [discriminate|].
  destruct (np_max_returns (a := np_abs (map snd (q :: w)))) as [m [Hm' Hin]];
    [discriminate|].
  rewrite Hm in Hm'. injection Hm' as <-.
  unfold np_abs in Hin. rewrite map_map in Hin. apply in_map_iff in Hin.
  destruct Hin as [p [Hp Hin]]. exists p. repeat split; [exact Hin | exact Hp|].
  apply float_div_abs_self; assumption.
Qed.

(** On doubles, with finite amplitudes in the range, not all zero, the
    greatest absolute amplitude of the result is exactly 1.0. *)
Lemma get_picked_data_finite (self : Signal.t float) :
  List.length (Signal.times self) = List.length (Signal.signal self) ->
  (forall p, In p (window_samples self) -> PrimFloat.is_finite (snd p) = true) ->
  (exists p, In p (window_samples self) /\ PrimFloat.is_zero (snd p) = false) ->
  exists picked,
    Signal.get_picked_data self = Returns picked /\
    np_max (np_abs (snd picked)) = Returns 1%float.
Proof.
  intros Hlen Hfin [p0 [Hp0 Hnz0]].
  destruct (get_picked_data_on_range self Hlen) as [m [Hm [Hin Hget]]].
  { intros E. rewrite E in Hp0. destruct Hp0. }
  eexists. split; [exact Hget|]. cbn [snd].
  assert (Hnan : forall p, In p (window_samples self) -> isnan (snd p) = false).
  { intros p Hp. apply float_finite_not_nan. now apply Hfin. }
  pose proof (absmax_bounds self Hm Hnan) as Hub.
  unfold np_abs in Hin. rewrite map_map in Hin. apply in_map_iff in Hin.
  destruct Hin as [pm [Epm Hpm]].
  assert (Fm : PrimFloat.is_finite m = true).
  { rewrite <- Epm. apply float_abs_finite. now apply Hfin. }
  assert (Zm : PrimFloat.is_zero m = false).
  { destruct (PrimFloat.is_zero m) eqn:E; [|reflexivity].
    rewrite (@float_le_zero (snd p0) m (Hub p0 Hp0) E) in Hnz0. discriminate. }
  destruct (greatest_amplitude_becomes_one self Hm Fm Zm) as [p1 [Hp1 [_ H1]]].
  set (A := np_abs (map (fun p => (snd p / m)%num) (window_samples self))).
  assert (Hle : forall a, In a A -> (a <=? 1%float)%num = true).
  { intros a Ha. subst A. unfold np_abs in Ha. rewrite map_map in Ha.
    apply in_map_iff in Ha. destruct Ha as [p [<- Hp]].
    apply (@float_div_le_one (snd p) (snd pm) m Epm Fm Zm). now apply Hub. }
  assert (H1A : In 1%float A).
  { subst A. unfold np_abs. rewrite map_map. apply in_map_iff.
    exists p1. split; [exact H1 | exact Hp1]. }
  destruct (np_max_returns (a := A)) as [e [He Hein]].
  { intros E. rewrite E in H1A. destruct H1A. }
  rewrite He. f_equal. apply float_leb_antisym_one.
  - now apply Hle.
  - refine (@np_max_bounds float float_Num float_Comparable A e _ He 1%float H1A).
    intros y Hy. destruct (isnan y) eqn:Ey; [|reflexivity].
    specialize (Hle y Hy). rewrite (nan_leb_l y 1%float Ey) in Hle. discriminate.
Qed.

(** C6, as the code has it.  (1) For a signal with as many amplitudes as
    times and a non-empty filtered range, the extraction returns exactly the
    samples of the range, every amplitude divided by [absmax], the result of
    numpy's maximum over the absolute amplitudes of the range, which is one
    of them.  (2) When no amplitude of the range is a NaN (doubles
    included), [absmax] bounds every absolute amplitude of the range; a NaN
    amplitude makes [absmax] a NaN.  (3) On doubles, when the amplitudes of
    the range are finite and one of them is not zero, the greatest absolute
    amplitude of the result is exactly 1.0.  (4) So it is in exact
    arithmetic, with a nonzero amplitude in the range. *)
Theorem get_picked_data_normalised :
  (forall (F : Type) (NumF : Num F) (self : Signal.t F),
     List.length (Signal.times self) = List.length (Signal.signal self) ->
     window_samples self <> [] ->
     exists absmax picked,
       np_max (np_abs (map snd (window_samples self))) = Returns absmax /\
       In absmax (np_abs (map snd (window_samples self))) /\
       Signal.get_picked_data self = Returns picked /\
       fst picked = map fst (window_samples self) /\
       snd picked = map (fun p => (snd p / absmax)%num) (window_samples self)) /\
  (forall (F : Type) (NumF : Num F) (CmpF : Comparable F)
          (self : Signal.t F) (absmax : F),
     np_max (np_abs (map snd (window_samples self))) = Returns absmax ->
     ((forall p, In p (window_samples self) -> isnan (snd p) = false) ->
      forall p, In p (window_samples self) -> (abs (snd p) <=? absmax)%num = true) /\
     ((exists p, In p (window_samples self) /\ isnan (snd p) = true) ->
      isnan absmax = true)) /\
  (forall self : Signal.t float,
     List.length (Signal.times self) = List.length (Signal.signal self) ->
     (forall p, In p (window_samples self) -> PrimFloat.is_finite (snd p) = true) ->
     (exists p, In p (window_samples self) /\ PrimFloat.is_zero (snd p) = false) ->
     exists picked,
       Signal.get_picked_data self = Returns picked /\
       np_max (np_abs (snd picked)) = Returns 1%float) /\
  (forall (F : Type) (NumF : Num F) (ExactF : Exact F) (self : Signal.t F),
     List.length (Signal.times self) = List.length (Signal.signal self) ->
     (exists p, In p (window_samples self) /\ snd p <> lit 0 0) ->
     exists picked,
       Signal.get_picked_data self = Returns picked /\
       np_max (np_abs (snd picked)) = Returns (lit 1 0)).
Proof.
  split; [|split; [|split]].
  - intros F NumF self Hlen Hne.
    destruct (get_picked_data_on_range self Hlen Hne) as [m [Hm [Hin Hget]]].
    exists m. eexists. repeat split; [exact Hm | exact Hin | exact Hget | |].
    + simpl. symmetry. now apply window_times.
    + reflexivity.
  - intros F NumF CmpF self absmax Hm. split.
    + now apply absmax_bounds.
    + now apply absmax_nan.
  - exact get_picked_data_finite.
  - intros F NumF ExactF self. apply get_picked_data_exact.
Qed.

(** *** The window on concrete signals *)

(** C5 at a double: a click at 4 is nearer to [finish = 2] than to
    [start = 1]. *)
Lemma move_line_moves_finish_at_4 :
  bounds (snd (Signal.move_line (Signal.Build_MouseEvent ax_template (Some 4%float))
                                (Demo.sig [])))
  = (1%float, 4%float).
Proof.
  apply (proj1 (proj2 (proj2
           (move_line_moves_nearest_bound (Demo.sig []) ax_template 4%float)))).
  vm_compute. reflexivity.
Defined.

(** C3 at a double signal: the window holds the amplitudes -4 and 2, and
    the extraction returns them over 4. *)
Lemma get_picked_data_returns_at_demo :
  exists absmax,
    np_max (np_abs (map snd (window_samples (Demo.sig [])))) = Returns absmax /\
    Signal.get_picked_data (Demo.sig [])
    = Returns (filter (fun x => (Signal.start (Demo.sig []) <=? x)%num
                                && (x <=? Signal.finish (Demo.sig []))%num)
                      (Signal.times (Demo.sig [])),
               map (fun p => (snd p / absmax)%num) (window_samples (Demo.sig []))).
Proof.
  apply (proj2 (@get_picked_data_raises_iff_empty float float_Num (Demo.sig []) eq_refl)).
  vm_compute. discriminate.
Defined.

(** C3 as the specification states it fails here: the maximum absolute
    amplitude of the window is zero, and the extraction returns (every
    amplitude of the result is the NaN of 0/0). *)
Lemma zero_window_is_returned :
  np_max (np_abs (map snd (window_samples Demo.flat))) = Returns 0%float /\
  Signal.get_picked_data Demo.flat
  = Returns ([1%float; 2%float], [PrimFloat.nan; PrimFloat.nan]).
Proof. split; vm_compute; reflexivity. Qed.

(** C6 at a double signal: the amplitudes -4 and 2 of the window become -1
    and 0.5, of greatest absolute value 1. *)
Lemma get_picked_data_normalised_at_demo :
  exists picked,
    Signal.get_picked_data (Demo.sig []) = Returns picked /\
    np_max (np_abs (snd picked)) = Returns 1%float.
Proof.
  apply (proj1 (proj2 (proj2 get_picked_data_normalised)) (Demo.sig [])).
  - reflexivity.
  - intros p [<-|[<-|[]]]; reflexivity.
  - exists (1%float, (-4)%float). split; [left; reflexivity | reflexivity].
Defined.

(** C6 as the specification states it fails here: the range holds the
    nonzero amplitudes -4 and infinity; the divisor is infinity, the result
    holds the NaN of infinity over infinity, and numpy's maximum of its
    absolute amplitudes is that NaN, not 1.0. *)
Lemma infinite_amplitude_is_not_normalised :
  Signal.get_picked_data Demo.unbounded
  = Returns ([1%float; 2%float], [(-0)%float; PrimFloat.nan]) /\
  np_max (np_abs [(-0)%float; PrimFloat.nan]) = Returns PrimFloat.nan.
Proof. split; vm_compute; reflexivity. Qed.

(** ** Time picks and the elastic properties *)

Section Propagation.

Context {F : Type} {NumF : Num F} {RootF : Root F} {PowF : Pow F}.

Local Open Scope num_scope.



Lemma time_picks_nonempty (self : Signal.t F) :
  Signal.picks self <> [] ->
  exists lo hi,
    np_min (Signal.picks self) = Returns lo /\
    np_max (Signal.picks self) = Returns hi /\
    In lo (Signal.picks self) /\ In hi (Signal.picks self) /\
    Signal.time_picks self
    = Returns (lo, hi, np_mean (Signal.picks self), np_std (Signal.picks self)).
Proof.
  intros Hne.
  destruct (np_min_returns Hne) as [lo [Hlo Hlo_in]].
  destruct (np_max_returns Hne) as [hi [Hhi Hhi_in]].
  exists lo, hi. repeat split; try assumption.
  unfold Signal.time_picks.
  destruct (Signal.picks self) as [|p r] eqn:E; [congruence|].
  rewrite Hlo, Hhi. reflexivity.
Qed.

(** [time_picks] never raises. *)
Lemma time_picks_returns (self : Signal.t F) :
  exists st, Signal.time_picks self = Returns st.
Proof.
  destruct (Signal.picks self) as [|p r] eqn:E.
  - unfold Signal.time_picks. rewrite E. eexists. reflexivity.
  - destruct (@time_picks_nonempty self) as [lo [hi [_ [_ [_ [_ H]]]]]].
    + rewrite E. discriminate.
    + eexists. exact H.
Qed.


Lemma mc_velocity_unfold (id : nat) (self : Signal.t F) :
  Signal.mc_velocity id self =
  try time := transit_time id self in
  Returns ((Signal.length self / time) * Scalar (lit 1 4)).
Proof.
  unfold Signal.mc_velocity, transit_time.
  destruct (Signal.time_picks self) as [st|e]; cbn [obind]; [|reflexivity].
  unfold mc_Normal. destruct (lit 0 0 <? snd st); reflexivity.
Qed.

Lemma transit_time_returns (id : nat) (self : Signal.t F) :
  exists time, transit_time id self = Returns time.
Proof.
  unfold transit_time.
  destruct (time_picks_returns self) as [st ->]. eexists. reflexivity.
Qed.

(** The four computations return, each from the one before it. *)
Lemma elastic_properties_return (id : nat) (self : Signal.t F) :
  exists time v k,
    transit_time id self = Returns time /\
    Signal.mc_velocity id self = Returns v /\
    v = (Signal.length self / time) * Scalar (lit 1 4) /\
    Signal.bulk_modulus id self = Returns k /\
    k = (Scalar (lit 1 (-6)) * Signal.density self * upow v 2)
        - (Scalar (lit 4 0 / lit 3 0) * Signal.shear self) /\
    Signal.young_modulus id self
    = Returns ((Scalar (lit 3 0) * k - Scalar (lit 2 0) * Signal.shear self)
               / (Scalar (lit 2 0) * (Scalar (lit 3 0) * k + Signal.shear self))) /\
    Signal.poissons_ratio id self
    = Returns ((Scalar (lit 9 0) * k * Signal.shear self)
               / (Scalar (lit 3 0) * k + Signal.shear self)).
Proof.
  destruct (transit_time_returns id self) as [time Ht].
  exists time. eexists. eexists.
  assert (Hv : Signal.mc_velocity id self
               = Returns ((Signal.length self / time) * Scalar (lit 1 4))).
  { rewrite mc_velocity_unfold, Ht. reflexivity. }
  assert (Hk : Signal.bulk_modulus id self
               = Returns ((Scalar (lit 1 (-6)) * Signal.density self
                           * upow ((Signal.length self / time) * Scalar (lit 1 4)) 2)
                          - (Scalar (lit 4 0 / lit 3 0) * Signal.shear self))).
  { unfold Signal.bulk_modulus. rewrite Hv. reflexivity. }
  split; [exact Ht|]. split; [exact Hv|]. split; [reflexivity|].
  split; [exact Hk|]. split; [reflexivity|]. split.
  - unfold Signal.young_modulus. rewrite Hk. reflexivity.
  - unfold Signal.poissons_ratio. rewrite Hk. reflexivity.
Qed.

(** Reading a point commutes with the operators, whichever side holds an
    object of the library. *)
Lemma sample_uop (d : draws F) (i : nat) (op : binop) (a b : uval F) :
  sample d i (uop op a b) = binop_eval op (sample d i a) (sample d i b).
Proof. destruct a, b; reflexivity. Qed.

Lemma sample_add (d : draws F) (i : nat) (a b : uval F) :
  sample d i (a + b) = sample d i a + sample d i b.
Proof. apply (sample_uop d i Add). Qed.

Lemma sample_sub (d : draws F) (i : nat) (a b : uval F) :
  sample d i (a - b) = sample d i a - sample d i b.
Proof. apply (sample_uop d i Sub). Qed.

Lemma sample_mul (d : draws F) (i : nat) (a b : uval F) :
  sample d i (a * b) = sample d i a * sample d i b.
Proof. apply (sample_uop d i Mul). Qed.

Lemma sample_div (d : draws F) (i : nat) (a b : uval F) :
  sample d i (a / b) = sample d i a / sample d i b.
Proof. apply (sample_uop d i Div). Qed.

Lemma sample_upow (d : draws F) (i : nat) (a : uval F) (n : nat) :
  sample d i (upow a n) = power (sample d i a) n.
Proof. destruct a; reflexivity. Qed.

Lemma sample_Scalar (d : draws F) (i : nat) (x : F) : sample d i (Scalar x) = x.
Proof. reflexivity. Qed.

(** At every Monte Carlo point the four outputs are the closed forms. *)
Lemma elastic_properties_closed_forms (id : nat) (self : Signal.t F) :
  exists time v k y p,
    transit_time id self = Returns time /\
    Signal.mc_velocity id self = Returns v /\
    Signal.bulk_modulus id self = Returns k /\
    Signal.young_modulus id self = Returns y /\
    Signal.poissons_ratio id self = Returns p /\
    forall (d : draws F) (i : nat),
      let length := sample d i (Signal.length self) in
      let density := sample d i (Signal.density self) in
      let shear := sample d i (Signal.shear self) in
      sample d i v = velocity_of length (sample d i time) /\
      sample d i k = bulk_modulus_of density (sample d i v) shear /\
      sample d i y = young_modulus_of (sample d i k) shear /\
      sample d i p = poissons_ratio_of (sample d i k) shear.
Proof.
  destruct (elastic_properties_return id self)
    as [time [v [k [Ht [Hv [Ev [Hk [Ek [Hy Hp]]]]]]]]].
  exists time, v, k. eexists. eexists.
  repeat (split; [eassumption|]).
  intros d i length density shear. subst length density shear.
  unfold velocity_of, bulk_modulus_of, young_modulus_of, poissons_ratio_of.
  repeat split.
  - rewrite Ev, sample_mul, sample_div. reflexivity.
  - rewrite Ek, sample_sub, !sample_mul, sample_upow. reflexivity.
  - rewrite sample_div, sample_sub, !sample_mul, sample_add, sample_mul.
    reflexivity.
  - rewrite sample_div, !sample_mul, sample_add, sample_mul. reflexivity.
Qed.

(** Operators on plain numbers give plain numbers. *)
Lemma uop_Scalar (op : binop) (x y : F) :
  uop op (Scalar x) (Scalar y) = Scalar (binop_eval op x y).
Proof. reflexivity. Qed.

End Propagation.

(** C1.  For every signal, that is for every length, transit time, density
    and shear modulus, the four computations return, and at every Monte
    Carlo point the velocity is [(length / time) * 1e4], the bulk modulus
    the closed form of the velocity, and Young's modulus and Poisson's ratio
    the closed forms of the bulk modulus, with the constants as written and
    the square of the velocity taken by the platform's power; in exact
    arithmetic that square is the product of the velocity with itself. *)
Theorem elastic_properties_pointwise :
  (forall (F : Type) (NumF : Num F) (RootF : Root F) (PowF : Pow F)
          (id : nat) (self : Signal.t F),
     exists time v k y p,
       transit_time id self = Returns time /\
       Signal.mc_velocity id self = Returns v /\
       Signal.bulk_modulus id self = Returns k /\
       Signal.young_modulus id self = Returns y /\
       Signal.poissons_ratio id self = Returns p /\
       forall (d : draws F) (i : nat),
         let length := sample d i (Signal.length self) in
         let density := sample d i (Signal.density self) in
         let shear := sample d i (Signal.shear self) in
         sample d i v = velocity_of length (sample d i time) /\
         sample d i k = bulk_modulus_of density (sample d i v) shear /\
         sample d i y = young_modulus_of (sample d i k) shear /\
         sample d i p = poissons_ratio_of (sample d i k) shear) /\
  (forall density velocity shear : Qc,
     bulk_modulus_of density velocity shear
     = ((lit 1 (-6) * density * (velocity * velocity))
        - (lit 4 0 / lit 3 0) * shear)%num).
Proof.
  split.
  - intros F NumF RootF PowF. apply elastic_properties_closed_forms.
  - intros density velocity shear. unfold bulk_modulus_of. simpl.
    rewrite Qcmult_1_r. reflexivity.
Qed.



(** C2, as the code has it.  [main] passes every standard deviation to
    [mc.Normal], which asserts that it is positive: with a standard
    deviation of the length that is not positive [main] raises
    [AssertionError] before any signal is made, and when [main] returns all
    five standard deviations are positive.  Nothing collapses to a
    deterministic evaluation. *)
Theorem zero_std_input_is_rejected (F : Type) (NumF : Num F) (RootF : Root F)
  (metadata : Metadata F) (template_csv query_csv : list F * list F) :
  ((lit 0 0 <? np_std (length_raw metadata))%num = false ->
   main metadata template_csv query_csv = Raises AssertionError) /\
  (forall p, main metadata template_csv query_csv = Returns p ->
     (lit 0 0 <? np_std (length_raw metadata))%num = true /\
     (lit 0 0 <? density_dry_std metadata)%num = true /\
     (lit 0 0 <? shear_dry_d_mu metadata)%num = true /\
     (lit 0 0 <? density_sat_std metadata)%num = true /\
     (lit 0 0 <? shear_sat_d_mu metadata)%num = true).
Proof.
  split.
  - intros H. unfold main, mc_Normal. rewrite H. reflexivity.
  - intros p. unfold main, mc_Normal.
    destruct (lit 0 0 <? np_std (length_raw metadata))%num; cbn [obind];
      [|discriminate].
    destruct (lit 0 0 <? density_dry_std metadata)%num; cbn [obind];
      [|discriminate].
    destruct (lit 0 0 <? shear_dry_d_mu metadata)%num; cbn [obind];
      [|discriminate].
    destruct (Signal.init template_csv _ _ _) as [tp|e]; cbn [obind];
      [|discriminate].
    destruct (lit 0 0 <? density_sat_std metadata)%num; cbn [obind];
      [|discriminate].
    destruct (lit 0 0 <? shear_sat_d_mu metadata)%num; cbn [obind];
      [|discriminate].
    intros _. repeat split.
Qed.

(** C2 at doubles: the metadata with every standard deviation zero (two
    equal lengths of 10000). *)
Lemma main_raises_at_zero_std :
  main Demo.zero_std Demo.table Demo.table = Raises AssertionError.
Proof.
  apply (proj1 (@zero_std_input_is_rejected float float_Num float_Root
                  Demo.zero_std Demo.table Demo.table)).
  vm_compute. reflexivity.
Defined.

(** ** Samples that are not finite *)

Section NonFinite.

Context {PowF : Pow float}.

Lemma points_all_non_finite (d : draws float) (npts : nat) (u : uval float) :
  (forall i, PrimFloat.is_finite (sample d i u) = false) ->
  all_non_finite (points d npts u) = true.
Proof.
  intros H. unfold all_non_finite. apply forallb_forall. intros x Hx.
  assert (E : exists i, x = sample d i u).
  { destruct u; simpl in Hx;
      try (apply in_map_iff in Hx; destruct Hx as [i [<- _]]; exists i; reflexivity).
    destruct Hx as [<-|[]]. exists 0%nat. reflexivity. }
  destruct E as [i ->]. rewrite H. reflexivity.
Qed.

(** Where the transit time is zero the velocity is not finite, and with
    it, for a power that keeps what is not finite so, the three moduli. *)
Lemma zero_time_samples (id : nat) (self : Signal.t float)
  (time v k y p : uval float) (d : draws float) (i : nat) :
  transit_time id self = Returns time ->
  Signal.mc_velocity id self = Returns v ->
  Signal.bulk_modulus id self = Returns k ->
  Signal.young_modulus id self = Returns y ->
  Signal.poissons_ratio id self = Returns p ->
  PrimFloat.is_zero (sample d i time) = true ->
  PrimFloat.is_finite (sample d i v) = false /\
  ((forall x, PrimFloat.is_finite x = false ->
              PrimFloat.is_finite (power x 2) = false) ->
   PrimFloat.is_finite (sample d i k) = false /\
   PrimFloat.is_finite (sample d i y) = false /\
   PrimFloat.is_finite (sample d i p) = false).
Proof.
  intros Ht Hv Hk Hy Hp Hz.
  destruct (elastic_properties_closed_forms id self)
    as [time' [v' [k' [y' [p' [Ht' [Hv' [Hk' [Hy' [Hp' H]]]]]]]]]].
  rewrite Ht in Ht'. rewrite Hv in Hv'. rewrite Hk in Hk'.
  rewrite Hy in Hy'. rewrite Hp in Hp'.
  injection Ht' as <-. injection Hv' as <-. injection Hk' as <-.
  injection Hy' as <-. injection Hp' as <-.
  destruct (H d i) as [Ev [Ek [Ey Ep]]].
  assert (Nv : PrimFloat.is_finite (sample d i v) = false).
  { rewrite Ev. unfold velocity_of. apply float_mul_non_finite_l.
    apply float_div_by_zero. exact Hz. }
  split; [exact Nv|]. intros Hpow.
  assert (Nk : PrimFloat.is_finite (sample d i k) = false).
  { rewrite Ek. unfold bulk_modulus_of. apply float_sub_non_finite_l.
    apply float_mul_non_finite_r. apply Hpow. exact Nv. }
  split; [exact Nk|]. split.
  - rewrite Ey. unfold young_modulus_of. apply float_div_non_finite_l.
    apply float_sub_non_finite_l. apply float_mul_non_finite_r. exact Nk.
  - rewrite Ep. unfold poissons_ratio_of. apply float_div_non_finite_l.
    apply float_mul_non_finite_l. apply float_mul_non_finite_r. exact Nk.
Qed.

End NonFinite.

(** C8, as the code has it.  No computation tests for finite samples and
    none raises: velocity, bulk modulus, Young's modulus and Poisson's
    ratio are returned for every signal.  On doubles, at every Monte Carlo
    point where the transit time is zero the velocity is an infinity or a
    NaN, and so are the three moduli when the power of a number that is not
    finite is not finite (as C's [pow] has it); when the transit time is the
    plain number zero this is so at every point of all four, which are
    returned all the same. *)
Theorem non_finite_samples_are_returned :
  (forall (F : Type) (NumF : Num F) (RootF : Root F) (PowF : Pow F)
          (id : nat) (self : Signal.t F),
     exists v k y p,
       Signal.mc_velocity id self = Returns v /\
       Signal.bulk_modulus id self = Returns k /\
       Signal.young_modulus id self = Returns y /\
       Signal.poissons_ratio id self = Returns p) /\
  (forall (PowF : Pow float) (id : nat) (self : Signal.t float)
          (time v k y p : uval float) (d : draws float) (i : nat),
     transit_time id self = Returns time ->
     Signal.mc_velocity id self = Returns v ->
     Signal.bulk_modulus id self = Returns k ->
     Signal.young_modulus id self = Returns y ->
     Signal.poissons_ratio id self = Returns p ->
     PrimFloat.is_zero (sample d i time) = true ->
     PrimFloat.is_finite (sample d i v) = false /\
     ((forall x, PrimFloat.is_finite x = false ->
                 PrimFloat.is_finite (power x 2) = false) ->
      PrimFloat.is_finite (sample d i k) = false /\
      PrimFloat.is_finite (sample d i y) = false /\
      PrimFloat.is_finite (sample d i p) = false)) /\
  (forall (PowF : Pow float) (id : nat) (self : Signal.t float)
          (t : float) (v k y p : uval float) (d : draws float) (npts : nat),
     transit_time id self = Returns (Scalar t) ->
     Signal.mc_velocity id self = Returns v ->
     Signal.bulk_modulus id self = Returns k ->
     Signal.young_modulus id self = Returns y ->
     Signal.poissons_ratio id self = Returns p ->
     PrimFloat.is_zero t = true ->
     all_non_finite (points d npts v) = true /\
     ((forall x, PrimFloat.is_finite x = false ->
                 PrimFloat.is_finite (power x 2) = false) ->
      all_non_finite (points d npts k) = true /\
      all_non_finite (points d npts y) = true /\
      all_non_finite (points d npts p) = true)).
Proof.
  split; [|split].
  - intros F NumF RootF PowF id self.
    destruct (elastic_properties_return id self)
      as [time [v [k [_ [Hv [_ [Hk [_ [Hy Hp]]]]]]]]].
    exists v, k. eexists. eexists.
    repeat split; eassumption.
  - intros PowF. apply zero_time_samples.
  - intros PowF id self t v k y p d npts Ht Hv Hk Hy Hp Hz.
    assert (H : forall i,
      PrimFloat.is_finite (sample d i v) = false /\
      ((forall x, PrimFloat.is_finite x = false ->
                  PrimFloat.is_finite (power x 2) = false) ->
       PrimFloat.is_finite (sample d i k) = false /\
       PrimFloat.is_finite (sample d i y) = false /\
       PrimFloat.is_finite (sample d i p) = false)).
    { intros i. eapply zero_time_samples; eassumption. }
    split.
    + apply points_all_non_finite. intros i. apply (H i).
    + intros Hpow. repeat split; apply points_all_non_finite; intros i;
        apply (proj2 (H i) Hpow).
Qed.

(** C8 at doubles, with one pick at time 0 and, for the power, the product
    of a number with itself (one of the functions that keep what is not
    finite so): the velocity is not finite, nor are the three moduli. *)
Lemma non_finite_samples_at_zero_pick :
  let PowF : Pow float := Build_Pow (fun x _ => PrimFloat.mul x x) in
  exists v k y p,
    Signal.mc_velocity 0 (Demo.sig [0%float]) = Returns v /\
    Signal.bulk_modulus 0 (Demo.sig [0%float]) = Returns k /\
    Signal.young_modulus 0 (Demo.sig [0%float]) = Returns y /\
    Signal.poissons_ratio 0 (Demo.sig [0%float]) = Returns p /\
    PrimFloat.is_finite (sample (fun _ _ => 0%float) 0 v) = false /\
    PrimFloat.is_finite (sample (fun _ _ => 0%float) 0 k) = false /\
    PrimFloat.is_finite (sample (fun _ _ => 0%float) 0 y) = false /\
    PrimFloat.is_finite (sample (fun _ _ => 0%float) 0 p) = false.
Proof.
  intros PowF.
  destruct (proj1 non_finite_samples_are_returned float float_Num float_Root PowF
                  0%nat (Demo.sig [0%float])) as [v [k [y [p [Hv [Hk [Hy Hp]]]]]]].
  exists v, k, y, p.
  repeat (split; [assumption|]).
  destruct (proj1 (proj2 non_finite_samples_are_returned) PowF 0%nat
                  (Demo.sig [0%float]) (Scalar 0%float) v k y p
                  (fun _ _ => 0%float) 0%nat)
    as [Nv Nm]; try assumption; try reflexivity.
  split; [exact Nv|]. apply Nm.
  intros x Hx. apply float_mul_non_finite_l. exact Hx.
Defined.

(** C8 as the specification states it fails here: with one pick at time 0
    the velocity is the plain number infinity, its single evaluation is not
    finite, and the computation returns it. *)
Lemma non_finite_velocity_is_returned :
  Signal.mc_velocity 0 (Demo.sig [0%float]) = Returns (Scalar infinity) /\
  PrimFloat.is_finite infinity = false.
Proof. split; vm_compute; reflexivity. Qed.

(** ** The pick sets under the event handlers *)

Section HandlerFacts.

Context {F : Type} {NumF : Num F} {RootF : Root F}.

Variable dtw : list F -> list F -> list nat * list nat.
Variables analytic_abs analytic_angle : list F -> list F.
Variables plot_alignment plot_picks : Poropyck.t F -> outcome unit.

Lemma keeps_ret {A : Type} (a : A) : keeps_picks (ret (S := Poropyck.t F) a).
Proof. intros p. split; reflexivity. Qed.

Lemma keeps_gets {A : Type} (f : Poropyck.t F -> A) : keeps_picks (gets f).
Proof. intros p. split; reflexivity. Qed.

Lemma keeps_reads {A : Type} (f : Poropyck.t F -> outcome A) :
  keeps_picks (Poropyck.reads f).
Proof. intros p. split; reflexivity. Qed.

Lemma keeps_bind {A B : Type} (m : M (Poropyck.t F) A) (k : A -> M (Poropyck.t F) B) :
  keeps_picks m -> (forall a, keeps_picks (k a)) -> keeps_picks (bind m k).
Proof.
  intros Hm Hk p. unfold bind. specialize (Hm p).
  destruct (m p) as [[a|e] p']; simpl in *; [|exact Hm].
  destruct (Hk a p') as [H1 H2]. destruct Hm as [H3 H4].
  split; congruence.
Qed.

Lemma keeps_when (b : bool) (m : M (Poropyck.t F) unit) :
  keeps_picks m -> keeps_picks (when b m).
Proof. intros Hm. destruct b; simpl; [exact Hm | apply keeps_ret]. Qed.

Lemma keeps_on_template {A : Type} (m : M (Signal.t F) A) :
  keeps_own_picks m -> keeps_picks (Poropyck.on_template m).
Proof.
  intros Hm p. unfold Poropyck.on_template, template_picks, query_picks.
  specialize (Hm (Poropyck.template p)).
  destruct (m (Poropyck.template p)) as [r s]; simpl in *. split; [exact Hm|reflexivity].
Qed.

Lemma keeps_on_query {A : Type} (m : M (Signal.t F) A) :
  keeps_own_picks m -> keeps_picks (Poropyck.on_query m).
Proof.
  intros Hm p. unfold Poropyck.on_query, template_picks, query_picks.
  specialize (Hm (Poropyck.query p)).
  destruct (m (Poropyck.query p)) as [r s]; simpl in *. split; [reflexivity|exact Hm].
Qed.

Lemma move_line_keeps (e : Signal.MouseEvent F) : keeps_own_picks (Signal.move_line e).
Proof.
  intros s. unfold Signal.move_line.
  destruct (Signal.xdata e) as [click|]; [|reflexivity].
  destruct (ltb _ _); reflexivity.
Qed.

Lemma onrelease_keeps (e : Signal.MouseEvent F) : keeps_own_picks (Signal.onrelease e).
Proof.
  intros s. unfold Signal.onrelease, bind, modify.
  pose proof (move_line_keeps e (Signal.set_pressed false s)) as H.
  destruct (Signal.move_line e (Signal.set_pressed false s)) as [[[]|x] s1];
    simpl in *; [|exact H].
  destruct (Signal.get_picked_data s1); simpl; exact H.
Qed.

Lemma onpress_clears (e : Signal.MouseEvent F) (s : Signal.t F) :
  Signal.picks (snd (Signal.onpress e s)) = [].
Proof.
  unfold Signal.onpress, bind, modify.
  pose proof (move_line_keeps e (Signal.set_picks [] (Signal.set_pressed true s))) as H.
  destruct (Signal.move_line e _) as [[[]|x] s1]; simpl in *; exact H.
Qed.

Lemma run_dtw_keeps :
  keeps_picks (Poropyck.run_dtw dtw analytic_abs analytic_angle plot_alignment).
Proof. intros p. split; reflexivity. Qed.

Lemma Poropyck_onrelease_keeps (e : Signal.MouseEvent F) :
  keeps_picks (Poropyck.onrelease dtw analytic_abs analytic_angle plot_alignment e).
Proof.
  unfold Poropyck.onrelease.
  apply keeps_bind; [apply keeps_gets | intros tp].
  apply keeps_bind; [apply keeps_gets | intros qp].
  apply keeps_when.
  apply keeps_bind; [apply keeps_when, keeps_on_template, onrelease_keeps | intros _].
  apply keeps_bind; [apply keeps_gets | intros qp'].
  apply keeps_bind; [apply keeps_when, keeps_on_query, onrelease_keeps | intros _].
  apply run_dtw_keeps.
Qed.

Lemma Poropyck_onmotion_keeps (e : Signal.MouseEvent F) :
  keeps_picks (Poropyck.onmotion e).
Proof.
  unfold Poropyck.onmotion.
  apply keeps_when.
  apply keeps_bind; [apply keeps_gets | intros tp].
  apply keeps_bind; [apply keeps_gets | intros qp].
  apply keeps_when.
  apply keeps_bind; [apply keeps_when, keeps_on_template, move_line_keeps | intros _].
  apply keeps_bind; [apply keeps_gets | intros qp'].
  apply keeps_when, keeps_on_query, move_line_keeps.
Qed.

(** A press clears the pick set of the signal whose axes it is in, and
    leaves the other one. *)
Lemma Poropyck_onpress_picks (e : Signal.MouseEvent F) (p : Poropyck.t F) :
  let p' := snd (Poropyck.onpress e p) in
  match Signal.inaxes e with
  | ax_template => template_picks p' = [] /\ query_picks p' = query_picks p
  | ax_query => template_picks p' = template_picks p /\ query_picks p' = []
  | ax_other => template_picks p' = template_picks p /\ query_picks p' = query_picks p
  end.
Proof.
  unfold Poropyck.onpress, template_picks, query_picks.
  destruct (Signal.inaxes e); simpl; unfold bind, Poropyck.on_template,
    Poropyck.on_query, ret.
  - pose proof (onpress_clears e (Poropyck.template p)) as H.
    destruct (Signal.onpress e (Poropyck.template p)) as [[[]|x] s1]; simpl in *;
      split; auto.
  - simpl. pose proof (onpress_clears e (Poropyck.query p)) as H.
    destruct (Signal.onpress e (Poropyck.query p)) as [[[]|x] s1]; simpl in *;
      split; auto.
  - split; reflexivity.
Qed.

End HandlerFacts.

(** ** A pick on the summary plot *)

Section PickFacts.

Context {F : Type} {NumF : Num F} {RootF : Root F}.







Section Nearest.

Context {CmpF : Comparable F}.

Local Open Scope num_scope.



End Nearest.

Variable plot_picks : Poropyck.t F -> outcome unit.


(** Whatever the event holds, a pick either appends one value to both pick
    sets or, raising before it appends, leaves both. *)
Lemma onpick_appends_or_keeps (event : Poropyck.PickEvent F) (p : Poropyck.t F) :
  (template_picks (snd (Poropyck.onpick plot_picks event p)) = template_picks p /\
   query_picks (snd (Poropyck.onpick plot_picks event p)) = query_picks p) \/
  (exists x y,
     template_picks (snd (Poropyck.onpick plot_picks event p))
     = template_picks p ++ [y] /\
     query_picks (snd (Poropyck.onpick plot_picks event p))
     = query_picks p ++ [x]).
Proof.
  unfold Poropyck.onpick, bind, lift.
  destruct (np_index (Poropyck.artist_xdata event) (Poropyck.ind event)) as [xs|];
    [|left; split; reflexivity].
  destruct (np_index (Poropyck.artist_ydata event) (Poropyck.ind event)) as [ys|];
    [|left; split; reflexivity].
  destruct (np_argmin (Poropyck.pick_dists event xs ys)) as [k|];
    [|left; split; reflexivity].
  destruct (np_item xs k) as [x|]; [|left; split; reflexivity].
  destruct (np_item ys k) as [y|]; [|left; split; reflexivity].
  right. exists x, y. split; reflexivity.
Qed.

End PickFacts.

Section EveryEvent.

Context {F : Type} {NumF : Num F} {RootF : Root F}.

Variable dtw : list F -> list F -> list nat * list nat.
Variables analytic_abs analytic_angle : list F -> list F.
Variables plot_alignment plot_picks : Poropyck.t F -> outcome unit.

(** C7, as the code has it.  What each event does to the two pick sets,
    whether its handler returns or raises: a button press in the template's
    axes empties the template's pick set and leaves the query's, a press in
    the query's axes empties the query's and leaves the template's, a press
    anywhere else leaves both; a button release and a mouse move leave
    both; a pick leaves both or appends one value to each. *)
Theorem picks_emptied_by_own_press_only (ev : Poropyck.event F) (p : Poropyck.t F) :
  let p' := snd (Poropyck.handle dtw analytic_abs analytic_angle
                                 plot_alignment plot_picks ev p) in
  match ev with
  | Poropyck.button_press_event e =>
      match Signal.inaxes e with
      | ax_template => template_picks p' = [] /\ query_picks p' = query_picks p
      | ax_query => template_picks p' = template_picks p /\ query_picks p' = []
      | ax_other => template_picks p' = template_picks p /\ query_picks p' = query_picks p
      end
  | Poropyck.button_release_event _ | Poropyck.motion_notify_event _ =>
      template_picks p' = template_picks p /\ query_picks p' = query_picks p
  | Poropyck.pick_event _ =>
      (template_picks p' = template_picks p /\ query_picks p' = query_picks p) \/
      (exists x y, template_picks p' = template_picks p ++ [y] /\
                   query_picks p' = query_picks p ++ [x])
  end.
Proof.
  destruct ev as [e|e|e|e]; simpl.
  - exact (Poropyck_onpress_picks e p).
  - exact (Poropyck_onrelease_keeps dtw analytic_abs analytic_angle plot_alignment e p).
  - exact (Poropyck_onmotion_keeps e p).
  - exact (onpick_appends_or_keeps plot_picks e p).
Qed.

End EveryEvent.

(** C7 as the specification states it fails here: the template holds the
    pick 5; a button press in the template's axes leaves it with no pick. *)
Lemma press_removes_picks :
  template_picks (Demo.program (Demo.sig [5%float]) (Demo.sig [])) = [5%float]%list /\
  template_picks
    (snd (Poropyck.onpress (Signal.Build_MouseEvent ax_template (Some 1.5%float))
                           (Demo.program (Demo.sig [5%float]) (Demo.sig []))))
  = [].
Proof. split; vm_compute; reflexivity. Qed.


(** ** The alignment path *)

Section DtwFacts.

Context {F : Type} {NumF : Num F}.

Lemma Sorted_le_snoc (l : list nat) (x : nat) :
  Sorted le l -> (last l x <= x)%nat -> Sorted le (l ++ [x]).
Proof.
  induction l as [|a l IH]; intros Hs Hl; simpl.
  - constructor; constructor.
  - apply Sorted_inv in Hs. destruct Hs as [Hs Hd].
    destruct l as [|b l]; simpl in *.
    + constructor; [constructor; constructor|]. constructor. exact Hl.
    + constructor; [apply IH; assumption|].
      constructor. inversion Hd; assumption.
Qed.

Lemma path_to_start : path_to 1 1 [(1, 1)%nat].
Proof.
  repeat split; simpl; try reflexivity; constructor; constructor.
Qed.

Lemma path_to_step (i j i' j' : nat) (p : list (nat * nat)) :
  path_to i j p -> (i <= i')%nat -> (j <= j')%nat -> path_to i' j' (p ++ [(i', j')]).
Proof.
  intros [Hh [Hi [Hj [Si Sj]]]] Li Lj.
  repeat split.
  - destruct p; [discriminate|exact Hh].
  - intros d. rewrite map_app. simpl. apply last_last.
  - intros d. rewrite map_app. simpl. apply last_last.
  - rewrite map_app. simpl. apply Sorted_le_snoc; [exact Si|]. rewrite Hi. exact Li.
  - rewrite map_app. simpl. apply Sorted_le_snoc; [exact Sj|]. rewrite Hj. exact Lj.
Qed.

(** With fuel for [i + j] steps the backtracking reaches the first cell. *)
Lemma backtrack_path_to (m : list (list F)) (fuel i j : nat) :
  (i + j <= fuel)%nat -> path_to (S i) (S j) (Dtw.backtrack fuel m i j).
Proof.
  revert i j. induction fuel as [|fuel IH]; intros i j H.
  - assert (i = 0%nat) by lia. assert (j = 0%nat) by lia. subst.
    simpl. apply path_to_start.
  - destruct i as [|i], j as [|j]; simpl.
    + apply path_to_start.
    + apply (path_to_step (i := 1) (j := S j)); [apply IH; lia|lia|lia].
    + apply (path_to_step (i := S i) (j := 1)); [apply IH; lia|lia|lia].
    + destruct (Dtw.predecessor m i j).
      * apply (path_to_step (i := S i) (j := S j)); [apply IH; lia|lia|lia].
      * apply (path_to_step (i := S i) (j := S (S j))); [apply IH; lia|lia|lia].
      * apply (path_to_step (i := S (S i)) (j := S j)); [apply IH; lia|lia|lia].
Qed.

(** C9.  For non-empty sequences [A] and [B] the path of the alignment
    engine is two index sequences of one length, each non-decreasing, that
    start at (1, 1) and end at (|A|, |B|). *)
Theorem dtw_path_monotone_between_endpoints (A B : list F) :
  A <> [] -> B <> [] ->
  let path_a := snd (fst (Dtw.dtw A B)) in
  let path_b := snd (Dtw.dtw A B) in
  List.length path_a = List.length path_b /\
  Sorted le path_a /\ Sorted le path_b /\
  hd_error path_a = Some 1%nat /\ hd_error path_b = Some 1%nat /\
  (forall d, last path_a d = List.length A) /\
  (forall d, last path_b d = List.length B).
Proof.
  intros HA HB.
  destruct A as [|a ra]; [congruence|]. destruct B as [|b rb]; [congruence|].
  unfold Dtw.dtw. cbv zeta.
  set (m := Dtw.cost_matrix (a :: ra) (b :: rb)).
  set (i := (List.length (a :: ra) - 1)%nat).
  set (j := (List.length (b :: rb) - 1)%nat).
  destruct (@backtrack_path_to m (i + j) i j (le_n _)) as [Hh [Hi [Hj [Si Sj]]]].
  assert (Ei : S i = List.length (a :: ra)) by (subst i; simpl; lia).
  assert (Ej : S j = List.length (b :: rb)) by (subst j; simpl; lia).
  cbn [fst snd].
  split; [rewrite !length_map; reflexivity|].
  split; [exact Si|]. split; [exact Sj|].
  split; [destruct (Dtw.backtrack (i + j) m i j); [discriminate|];
          simpl in *; injection Hh as ->; reflexivity|].
  split; [destruct (Dtw.backtrack (i + j) m i j) as [|[x y] r]; [discriminate|];
          simpl in *; injection Hh as _ ->; reflexivity|].
  split; intros d; [rewrite <- Ei; apply Hi | rewrite <- Ej; apply Hj].
Qed.

End DtwFacts.

(** C9 at doubles: sequences of four and five samples. *)
Lemma dtw_path_monotone_at_demo :
  let A := [1%float; 2%float; 3%float; 4%float] in
  let B := [1%float; 1%float; 2%float; 2%float; 5%float] in
  Dtw.dtw A B = (2%float, [1; 1; 2; 3; 4]%nat, [1; 2; 3; 4; 5]%nat) /\
  List.length (snd (fst (Dtw.dtw A B))) = List.length (snd (Dtw.dtw A B)) /\
  Sorted le (snd (fst (Dtw.dtw A B))) /\ Sorted le (snd (Dtw.dtw A B)) /\
  hd_error (snd (fst (Dtw.dtw A B))) = Some 1%nat /\
  hd_error (snd (Dtw.dtw A B)) = Some 1%nat /\
  (forall d, last (snd (fst (Dtw.dtw A B))) d = List.length A) /\
  (forall d, last (snd (Dtw.dtw A B)) d = List.length B).
Proof.
  intros A B. split; [vm_compute; reflexivity|].
  apply (@dtw_path_monotone_between_endpoints float float_Num A B); discriminate.
Defined.

(** ** Further facts about the signals *)

Section SignalFacts.

Context {F : Type} {NumF : Num F} {RootF : Root F}.

(** [Signal.onpress] marks the signal pressed and leaves it with no pick,
    whether the move of the line returns or raises. *)
Theorem onpress_resets_the_signal (e : Signal.MouseEvent F) (s : Signal.t F) :
  Signal.pressed (snd (Signal.onpress e s)) = true /\
  Signal.picks (snd (Signal.onpress e s)) = [] /\
  (returned (fst (Signal.onpress e s)) = true <-> Signal.xdata e <> None).
Proof.
  unfold Signal.onpress, bind, modify, Signal.move_line. simpl.
  destruct (Signal.xdata e) as [click|]; simpl.
  - destruct (ltb _ _); simpl; repeat split; auto; discriminate.
  - repeat split; auto; try discriminate.
Qed.

(** [time_picks] never raises: numpy's reductions are only called on a
    non-empty list of picks. *)
Theorem time_picks_never_raises (s : Signal.t F) :
  returned (Signal.time_picks s) = true.
Proof.
  destruct (time_picks_returns s) as [st ->]. reflexivity.
Qed.

(** When [Signal.onrelease] returns, the signal is no longer pressed and
    its picked data are those of its window. *)
Theorem onrelease_recomputes_the_window (e : Signal.MouseEvent F) (s : Signal.t F) :
  fst (Signal.onrelease e s) = Returns tt ->
  let s' := snd (Signal.onrelease e s) in
  Signal.pressed s' = false /\
  Signal.get_picked_data s'
  = Returns (Signal.picked_times s', Signal.picked_signal s').
Proof.
  unfold Signal.onrelease, bind, modify, Signal.move_line. simpl.
  destruct (Signal.xdata e) as [click|]; simpl; [|discriminate].
  destruct (ltb _ _); simpl;
    match goal with
    | |- context [Signal.get_picked_data ?x] =>
        destruct (Signal.get_picked_data x) as [[ts xs]|err] eqn:E
    end; simpl; try discriminate; intros _; (split; [reflexivity|]);
    unfold Signal.get_picked_data in *; simpl in *; exact E.
Qed.

Lemma init_fields (data : list F * list F) (l d m : uval F) (s : Signal.t F) :
  Signal.init data l d m = Returns s ->
  Signal.length s = l /\ Signal.density s = d /\ Signal.shear s = m /\
  Signal.picks s = [].
Proof.
  unfold Signal.init.
  destruct (np_item _ _) as [st|]; simpl; [|discriminate].
  destruct (np_item _ _) as [fi|]; simpl; [|discriminate].
  destruct (Signal.get_picked_data _) as [pk|]; simpl; [|discriminate].
  intros [= <-]. repeat split; reflexivity.
Qed.

(** In [main] the two signals hold one and the same length object, and
    each its own density and shear modulus. *)
Theorem main_shares_the_length (metadata : Metadata F)
  (template_csv query_csv : list F * list F) (p : Poropyck.t F) :
  main metadata template_csv query_csv = Returns p ->
  Signal.length (Poropyck.template p) = Signal.length (Poropyck.query p) /\
  Signal.density (Poropyck.template p)
  = Normal 1 (density_dry_mean metadata) (density_dry_std metadata) /\
  Signal.density (Poropyck.query p)
  = Normal 3 (density_sat_mean metadata) (density_sat_std metadata) /\
  template_picks p = [] /\ query_picks p = [].
Proof.
  unfold main, mc_Normal, template_picks, query_picks.
  destruct (ltb _ (np_std _)); cbn [obind]; [|discriminate].
  destruct (ltb _ (density_dry_std _)); cbn [obind]; [|discriminate].
  destruct (ltb _ (shear_dry_d_mu _)); cbn [obind]; [|discriminate].
  destruct (Signal.init template_csv _ _ _) as [tp|] eqn:Et; cbn [obind];
    [|discriminate].
  destruct (ltb _ (density_sat_std _)); cbn [obind]; [|discriminate].
  destruct (ltb _ (shear_sat_d_mu _)); cbn [obind]; [|discriminate].
  destruct (Signal.init query_csv _ _ _) as [q|] eqn:Eq; cbn [obind];
    [|discriminate].
  intros [= <-]. simpl.
  destruct (init_fields _ _ _ _ Et) as [Tl [Td [_ Tp]]].
  destruct (init_fields _ _ _ _ Eq) as [Ql [Qd [_ Qp]]].
  repeat split; congruence.
Qed.

End SignalFacts.

(** [onrelease] at doubles: releasing at 3 moves [finish] and picks three
    samples. *)
Lemma onrelease_recomputes_the_window_at_3 :
  let e := Signal.Build_MouseEvent ax_template (Some 3%float) in
  let s' := snd (Signal.onrelease e (Demo.sig [])) in
  Signal.pressed s' = false /\
  Signal.get_picked_data s'
  = Returns (Signal.picked_times s', Signal.picked_signal s').
Proof.
  apply (@onrelease_recomputes_the_window float float_Num
           (Signal.Build_MouseEvent ax_template (Some 3%float)) (Demo.sig [])).
  vm_compute. reflexivity.
Defined.

(** [main] at doubles, every standard deviation positive. *)
Lemma main_shares_the_length_at_demo :
  exists p,
    main Demo.metadata Demo.table Demo.table = Returns p /\
    Signal.length (Poropyck.template p) = Signal.length (Poropyck.query p) /\
    Signal.density (Poropyck.template p) = Normal 1 2.5%float 0.125%float /\
    Signal.density (Poropyck.query p) = Normal 3 2.75%float 0.125%float /\
    template_picks p = [] /\ query_picks p = [].
Proof.
  eexists. split; [vm_compute; reflexivity|].
  eapply (@main_shares_the_length float float_Num float_Root
            Demo.metadata Demo.table Demo.table).
  vm_compute. reflexivity.
Defined.

(** The closed form of the bulk modulus in exact arithmetic: density 2.5,
    velocity 3000 and shear modulus 10 give 22.5 - 40/3 = 55/6. *)
Example bulk_modulus_of_at_3000 :
  bulk_modulus_of (lit 25 (-1)) (lit 3 3) (lit 1 1) = Q2Qc (55 # 6).
Proof. apply Qc_is_canon. vm_compute. reflexivity. Qed.

(** ** When the outputs are plain numbers *)

Section Determinism.

Context {F : Type} {NumF : Num F} {RootF : Root F} {PowF : Pow F}.

Local Open Scope num_scope.

Lemma is_scalar_uop (op : binop) (a b : uval F) :
  is_scalar (uop op a b) = is_scalar a && is_scalar b.
Proof. destruct a, b; reflexivity. Qed.

Lemma is_scalar_upow (a : uval F) (n : nat) : is_scalar (upow a n) = is_scalar a.
Proof. destruct a; reflexivity. Qed.

Lemma is_scalar_add (a b : uval F) : is_scalar (a + b) = is_scalar a && is_scalar b.
Proof. apply is_scalar_uop. Qed.

Lemma is_scalar_sub (a b : uval F) : is_scalar (a - b) = is_scalar a && is_scalar b.
Proof. apply is_scalar_uop. Qed.

Lemma is_scalar_mul (a b : uval F) : is_scalar (a * b) = is_scalar a && is_scalar b.
Proof. apply is_scalar_uop. Qed.

Lemma is_scalar_div (a b : uval F) : is_scalar (a / b) = is_scalar a && is_scalar b.
Proof. apply is_scalar_uop. Qed.

Lemma is_scalar_Scalar (x : F) : is_scalar (Scalar x) = true.
Proof. reflexivity. Qed.

(** The velocity is a plain number exactly when the length is one and the
    standard deviation of the picks is not positive; the bulk modulus when
    moreover density and shear modulus are plain numbers; Young's modulus
    and Poisson's ratio exactly when the bulk modulus is.  One object of
    the library among the inputs makes every output that uses it an
    object. *)
Theorem outputs_plain_iff_inputs_plain (id : nat) (self : Signal.t F) :
  exists st v k y p,
    Signal.time_picks self = Returns st /\
    Signal.mc_velocity id self = Returns v /\
    Signal.bulk_modulus id self = Returns k /\
    Signal.young_modulus id self = Returns y /\
    Signal.poissons_ratio id self = Returns p /\
    is_scalar v = is_scalar (Signal.length self) && negb (lit 0 0 <? snd st) /\
    is_scalar k = is_scalar v && is_scalar (Signal.density self)
                  && is_scalar (Signal.shear self) /\
    is_scalar y = is_scalar k /\
    is_scalar p = is_scalar k.
Proof.
  destruct (time_picks_returns self) as [st Hst].
  destruct (elastic_properties_return id self)
    as [time [v [k [Ht [Hv [Ev [Hk [Ek [Hy Hp]]]]]]]]].
  exists st, v, k. eexists. eexists.
  split; [exact Hst|]. split; [exact Hv|]. split; [exact Hk|].
  split; [exact Hy|]. split; [exact Hp|].
  assert (Et : is_scalar time = negb (lit 0 0 <? snd st)).
  { unfold transit_time in Ht. rewrite Hst in Ht. simpl in Ht.
    injection Ht as <-. destruct (lit 0 0 <? snd st); reflexivity. }
  assert (Ekv : is_scalar k = is_scalar v && is_scalar (Signal.density self)
                              && is_scalar (Signal.shear self)).
  { rewrite Ek, is_scalar_sub, !is_scalar_mul, is_scalar_upow, !is_scalar_Scalar.
    destruct (is_scalar v), (is_scalar (Signal.density self)),
      (is_scalar (Signal.shear self)); reflexivity. }
  split; [|split; [exact Ekv|]].
  - rewrite Ev, is_scalar_mul, is_scalar_div, Et, is_scalar_Scalar.
    rewrite andb_true_r. reflexivity.
  - rewrite !is_scalar_div, is_scalar_sub, !is_scalar_mul, is_scalar_add,
      is_scalar_mul, !is_scalar_Scalar, Ekv.
    destruct (is_scalar v), (is_scalar (Signal.density self)),
      (is_scalar (Signal.shear self)); split; reflexivity.
Qed.

End Determinism.

(** Before any pick, on doubles: the transit time is the Gaussian of mean 0
    and standard deviation 0.25, so the velocity is an object of the
    library whatever the length is. *)
Theorem velocity_before_any_pick (id : nat) (self : Signal.t float) :
  Signal.picks self = [] ->
  Signal.mc_velocity id self
  = Returns (UFun Mul (UFun Div (Signal.length self) (Normal id 0%float 0.25%float))
                  (Scalar 10000%float)).
Proof.
  intros E. unfold Signal.mc_velocity, Signal.time_picks, mc_Normal.
  rewrite E. simpl.
  change (PrimFloat.ltb (F64.of_dec 0 0) (F64.of_dec 25 (-2))) with true.
  cbn [obind]. destruct (Signal.length self); reflexivity.
Qed.

Lemma velocity_before_any_pick_at_demo :
  Signal.mc_velocity 7 (Demo.sig [])
  = Returns (UFun Mul (UFun Div (Scalar 10000%float) (Normal 7 0%float 0.25%float))
                  (Scalar 10000%float)).
Proof.
  apply (velocity_before_any_pick 7 (Demo.sig [])). reflexivity.
Defined.

(** ** The picked data and the constructor *)

Section PickedData.

Context {F : Type} {NumF : Num F}.

Local Open Scope num_scope.

(** The picked times are times of the signal inside the window, and a
    returned segment is not empty. *)
Lemma picked_times_in_window (self : Signal.t F) (ts xs : list F) :
  Signal.get_picked_data self = Returns (ts, xs) ->
  xs <> [] /\
  ts = filter (fun x => (Signal.start self <=? x) && (x <=? Signal.finish self))
              (Signal.times self) /\
  forall t, In t ts ->
    In t (Signal.times self) /\
    (Signal.start self <=? t) = true /\ (t <=? Signal.finish self) = true.
Proof.
  intros Hget. pose proof (get_picked_data_times self Hget) as Hts.
  split; [|split; [exact Hts|]].
  - unfold Signal.get_picked_data in Hget.
    destruct (np_extract _ (Signal.times self)) as [tm|e]; cbn [obind] in Hget;
      [|discriminate].
    destruct (np_extract _ (Signal.signal self)) as [sg|e]; cbn [obind] in Hget;
      [|discriminate].
    destruct sg as [|x sg]; simpl in Hget; [discriminate|].
    injection Hget as _ <-. discriminate.
  - intros t Ht. rewrite Hts in Ht. apply filter_In in Ht. destruct Ht as [Hin Hb].
    apply andb_true_iff in Hb. tauto.
Qed.

(** What [get_picked_data] returns: two arrays of one length, not empty
    and no longer than the signal; every picked time is a time of the
    signal between the two bounds, both included. *)
Theorem picked_data_shape (self : Signal.t F) (ts xs : list F) :
  List.length (Signal.times self) = List.length (Signal.signal self) ->
  Signal.get_picked_data self = Returns (ts, xs) ->
  List.length ts = List.length xs /\
  (0 < List.length ts <= List.length (Signal.times self))%nat /\
  forall t, In t ts ->
    In t (Signal.times self) /\
    (Signal.start self <=? t) = true /\ (t <=? Signal.finish self) = true.
Proof.
  intros Hlen Hget.
  destruct (picked_times_in_window self Hget) as [Hne [Hts Hin]].
  assert (Hl : List.length ts = List.length xs).
  { rewrite (get_picked_data_unfold self Hlen) in Hget.
    destruct (np_max _) as [m|e]; cbn [obind] in Hget; [|discriminate].
    injection Hget as <- <-.
    rewrite <- (window_times self Hlen), !length_map. reflexivity. }
  split; [exact Hl|]. split; [|exact Hin].
  split.
  - rewrite Hl. destruct xs; [congruence|simpl; lia].
  - rewrite Hts. apply filter_length_le.
Qed.


End PickedData.

(** The picked data at doubles: the window from 1 to 2 of four samples. *)
Lemma picked_data_shape_at_demo :
  Signal.get_picked_data (Demo.sig [])
  = Returns ([1%float; 2%float], [(-1)%float; 0.5%float]) /\
  List.length [1%float; 2%float] = List.length [(-1)%float; 0.5%float] /\
  (0 < List.length [1%float; 2%float] <= List.length (Signal.times (Demo.sig [])))%nat /\
  forall t, In t [1%float; 2%float] ->
    In t (Signal.times (Demo.sig [])) /\
    (Signal.start (Demo.sig []) <=? t)%num = true /\
    (t <=? Signal.finish (Demo.sig []))%num = true.
Proof.
  split; [vm_compute; reflexivity|].
  apply (@picked_data_shape float float_Num (Demo.sig []));
    vm_compute; reflexivity.
Defined.


(** ** What the event handlers leave alone *)

Section Frames.

Context {F : Type} {NumF : Num F} {RootF : Root F}.

Variable dtw : list F -> list F -> list nat * list nat.
Variables analytic_abs analytic_angle : list F -> list F.
Variables plot_alignment plot_picks : Poropyck.t F -> outcome unit.

Section Part.

Context {X : Type}.

Variable part : Signal.t F -> X.

Lemma keeps_part_ret {A : Type} (a : A) : keeps part (ret (S := Poropyck.t F) a).
Proof. intros p. split; reflexivity. Qed.

Lemma keeps_part_gets {A : Type} (f : Poropyck.t F -> A) : keeps part (gets f).
Proof. intros p. split; reflexivity. Qed.

Lemma keeps_part_lift {A : Type} (o : outcome A) :
  keeps part (lift (S := Poropyck.t F) o).
Proof. intros p. split; reflexivity. Qed.

Lemma keeps_part_bind {A B : Type} (m : M (Poropyck.t F) A)
  (k : A -> M (Poropyck.t F) B) :
  keeps part m -> (forall a, keeps part (k a)) -> keeps part (bind m k).
Proof.
  intros Hm Hk p. unfold bind. specialize (Hm p).
  destruct (m p) as [[a|e] p']; simpl in *; [|exact Hm].
  destruct (Hk a p') as [H1 H2]. destruct Hm as [H3 H4].
  split; congruence.
Qed.

Lemma keeps_part_when (b : bool) (m : M (Poropyck.t F) unit) :
  keeps part m -> keeps part (when b m).
Proof. intros Hm. destruct b; simpl; [exact Hm | apply keeps_part_ret]. Qed.

Lemma keeps_part_on_template {A : Type} (m : M (Signal.t F) A) :
  keeps_own part m -> keeps part (Poropyck.on_template m).
Proof.
  intros Hm p. unfold Poropyck.on_template. specialize (Hm (Poropyck.template p)).
  destruct (m (Poropyck.template p)) as [r s]; simpl in *. split; [exact Hm|reflexivity].
Qed.

Lemma keeps_part_on_query {A : Type} (m : M (Signal.t F) A) :
  keeps_own part m -> keeps part (Poropyck.on_query m).
Proof.
  intros Hm p. unfold Poropyck.on_query. specialize (Hm (Poropyck.query p)).
  destruct (m (Poropyck.query p)) as [r s]; simpl in *. split; [reflexivity|exact Hm].
Qed.

Lemma keeps_part_reads {A : Type} (f : Poropyck.t F -> outcome A) :
  keeps part (Poropyck.reads f).
Proof. intros p. split; reflexivity. Qed.

Lemma keeps_part_run_dtw :
  keeps part (Poropyck.run_dtw dtw analytic_abs analytic_angle plot_alignment).
Proof. intros p. split; reflexivity. Qed.

End Part.

Lemma move_line_keeps_but_bounds (e : Signal.MouseEvent F) :
  keeps_own but_bounds (Signal.move_line e).
Proof.
  intros s. unfold Signal.move_line.
  destruct (Signal.xdata e) as [click|]; [|reflexivity].
  destruct (ltb _ _); reflexivity.
Qed.

Lemma move_line_keeps_given (e : Signal.MouseEvent F) :
  keeps_own given (Signal.move_line e).
Proof.
  intros s. pose proof (move_line_keeps_but_bounds e s) as H.
  unfold but_bounds in H. congruence.
Qed.

Lemma onpress_keeps_given (e : Signal.MouseEvent F) :
  keeps_own given (Signal.onpress e).
Proof.
  intros s. unfold Signal.onpress, bind, modify.
  pose proof (move_line_keeps_given e
                (Signal.set_picks [] (Signal.set_pressed true s))) as H.
  destruct (Signal.move_line e _) as [[[]|x] s1]; simpl in *; exact H.
Qed.

Lemma onrelease_keeps_given (e : Signal.MouseEvent F) :
  keeps_own given (Signal.onrelease e).
Proof.
  intros s. unfold Signal.onrelease, bind, modify.
  pose proof (move_line_keeps_given e (Signal.set_pressed false s)) as H.
  destruct (Signal.move_line e (Signal.set_pressed false s)) as [[[]|x] s1];
    simpl in *; [|exact H].
  destruct (Signal.get_picked_data s1); simpl; exact H.
Qed.

Lemma append_keeps_but_picks (v : F) :
  keeps_own but_picks (modify (Poropyck.append v)).
Proof. intros s. reflexivity. Qed.

(** No event handler changes what a signal was given when it was made:
    its times, its amplitudes, the length, the density and the shear
    modulus stay the same through every event, returning or raising. *)
Theorem handlers_keep_the_given_data (ev : Poropyck.event F) (p : Poropyck.t F) :
  let p' := snd (Poropyck.handle dtw analytic_abs analytic_angle
                                 plot_alignment plot_picks ev p) in
  given (Poropyck.template p') = given (Poropyck.template p) /\
  given (Poropyck.query p') = given (Poropyck.query p).
Proof.
  revert p.
  change (keeps given (Poropyck.handle dtw analytic_abs analytic_angle
                                       plot_alignment plot_picks ev)).
  destruct ev as [e|e|e|e]; simpl.
  - unfold Poropyck.onpress. apply keeps_part_when.
    apply keeps_part_bind; [|intros _];
      apply keeps_part_when;
      [apply keeps_part_on_template | apply keeps_part_on_query];
      apply onpress_keeps_given.
  - unfold Poropyck.onrelease.
    apply keeps_part_bind; [apply keeps_part_gets | intros tp].
    apply keeps_part_bind; [apply keeps_part_gets | intros qp].
    apply keeps_part_when.
    apply keeps_part_bind;
      [apply keeps_part_when, keeps_part_on_template, onrelease_keeps_given | intros _].
    apply keeps_part_bind; [apply keeps_part_gets | intros qp'].
    apply keeps_part_bind;
      [apply keeps_part_when, keeps_part_on_query, onrelease_keeps_given | intros _].
    apply keeps_part_run_dtw.
  - unfold Poropyck.onmotion. apply keeps_part_when.
    apply keeps_part_bind; [apply keeps_part_gets | intros tp].
    apply keeps_part_bind; [apply keeps_part_gets | intros qp].
    apply keeps_part_when.
    apply keeps_part_bind;
      [apply keeps_part_when, keeps_part_on_template, move_line_keeps_given | intros _].
    apply keeps_part_bind; [apply keeps_part_gets | intros qp'].
    apply keeps_part_when, keeps_part_on_query, move_line_keeps_given.
  - unfold Poropyck.onpick.
    repeat (apply keeps_part_bind; [apply keeps_part_lift | intros ?]).
    apply keeps_part_bind; [|intros _].
    + apply keeps_part_on_template. intros s. reflexivity.
    + apply keeps_part_bind; [|intros _].
      * apply keeps_part_on_query. intros s. reflexivity.
      * apply keeps_part_reads.
Qed.

(** A button press touches only the signal whose axes the pointer is in:
    outside the two signal plots it changes nothing at all, and in one of
    them it leaves the other signal and the six index arrays as they
    are. *)
Theorem onpress_touches_one_signal (e : Signal.MouseEvent F) (p : Poropyck.t F) :
  let p' := snd (Poropyck.onpress e p) in
  indices p' = indices p /\
  match Signal.inaxes e with
  | ax_template => Poropyck.query p' = Poropyck.query p
  | ax_query => Poropyck.template p' = Poropyck.template p
  | ax_other => Poropyck.onpress e p = (Returns tt, p)
  end.
Proof.
  unfold Poropyck.onpress, indices.
  destruct (Signal.inaxes e); simpl; unfold bind, Poropyck.on_template,
    Poropyck.on_query, ret.
  - destruct (Signal.onpress e (Poropyck.template p)) as [[[]|x] s1]; simpl;
      split; reflexivity.
  - simpl. destruct (Signal.onpress e (Poropyck.query p)) as [[[]|x] s1]; simpl;
      split; reflexivity.
  - split; reflexivity.
Qed.

Lemma onmotion_keeps_but_bounds (e : Signal.MouseEvent F) :
  keeps but_bounds (Poropyck.onmotion e).
Proof.
  unfold Poropyck.onmotion. apply keeps_part_when.
  apply keeps_part_bind; [apply keeps_part_gets | intros tp].
  apply keeps_part_bind; [apply keeps_part_gets | intros qp].
  apply keeps_part_when.
  apply keeps_part_bind;
    [apply keeps_part_when, keeps_part_on_template, move_line_keeps_but_bounds
    | intros _].
  apply keeps_part_bind; [apply keeps_part_gets | intros qp'].
  apply keeps_part_when, keeps_part_on_query, move_line_keeps_but_bounds.
Qed.

(** A mouse move changes nothing unless the pointer is in one of the two
    signal plots and a signal is pressed; whatever it does, it changes
    nothing but window bounds: the pressed flags, the picks, the picked
    data and the index arrays stay. *)
Theorem onmotion_moves_bounds_only (e : Signal.MouseEvent F) (p : Poropyck.t F) :
  let p' := snd (Poropyck.onmotion e p) in
  (Signal.inaxes e = ax_other \/
   (Signal.pressed (Poropyck.template p) = false /\
    Signal.pressed (Poropyck.query p) = false) ->
   Poropyck.onmotion e p = (Returns tt, p)) /\
  but_bounds (Poropyck.template p') = but_bounds (Poropyck.template p) /\
  but_bounds (Poropyck.query p') = but_bounds (Poropyck.query p) /\
  indices p' = indices p.
Proof.
  split; [|split; [|split]].
  - unfold Poropyck.onmotion. intros [H|[H1 H2]].
    + rewrite H. reflexivity.
    + destruct (Signal.inaxes e); simpl; try reflexivity;
        unfold bind, gets; rewrite H1, H2; reflexivity.
  - apply (onmotion_keeps_but_bounds e p).
  - apply (onmotion_keeps_but_bounds e p).
  - unfold Poropyck.onmotion, indices.
    destruct (axes_is _ _ || axes_is _ _); simpl; [|reflexivity].
    unfold bind, gets, when, ret, Poropyck.on_template, Poropyck.on_query.
    destruct (Signal.pressed (Poropyck.template p)),
      (Signal.pressed (Poropyck.query p)); simpl; try reflexivity;
      repeat match goal with
             | |- context [Signal.move_line ?e ?s] =>
                 destruct (Signal.move_line e s) as [[[]|?] ?]; simpl
             | |- context [if Signal.pressed ?s then _ else _] =>
                 destruct (Signal.pressed s); simpl
             end; reflexivity.
Qed.

End Frames.

(** ** Releasing the button, and picking *)

Section Release.

Context {F : Type} {NumF : Num F} {RootF : Root F}.

Variable dtw : list F -> list F -> list nat * list nat.
Variables analytic_abs analytic_angle : list F -> list F.
Variables plot_alignment plot_picks : Poropyck.t F -> outcome unit.

Lemma signal_onrelease_returns (e : Signal.MouseEvent F) (s : Signal.t F) :
  fst (Signal.onrelease e s) = Returns tt ->
  Signal.pressed (snd (Signal.onrelease e s)) = false /\
  picked_is_current (snd (Signal.onrelease e s)).
Proof.
  unfold picked_is_current, Signal.onrelease, bind, modify, Signal.move_line. simpl.
  destruct (Signal.xdata e) as [click|]; simpl; [|discriminate].
  destruct (ltb _ _); simpl;
    match goal with
    | |- context [Signal.get_picked_data ?x] =>
        destruct (Signal.get_picked_data x) as [[ts xs]|err] eqn:E
    end; simpl; try discriminate; intros _; (split; [reflexivity|]);
    unfold Signal.get_picked_data in *; simpl in *; exact E.
Qed.

(** A button release with no signal pressed changes nothing and runs no
    alignment.  One that returns with a signal pressed leaves no signal
    pressed, has recomputed the picked data of each signal that was
    pressed from its window, has left a signal that was not pressed as it
    was, and has aligned the picked signals as they now are. *)
Theorem onrelease_realigns (e : Signal.MouseEvent F) (p : Poropyck.t F) :
  let r := Poropyck.onrelease dtw analytic_abs analytic_angle plot_alignment e p in
  let tp := Poropyck.template p in
  let q := Poropyck.query p in
  (Signal.pressed tp = false /\ Signal.pressed q = false -> r = (Returns tt, p)) /\
  (fst r = Returns tt -> Signal.pressed tp || Signal.pressed q = true ->
   Signal.pressed (Poropyck.template (snd r)) = false /\
   Signal.pressed (Poropyck.query (snd r)) = false /\
   (if Signal.pressed tp then picked_is_current (Poropyck.template (snd r))
    else Poropyck.template (snd r) = tp) /\
   (if Signal.pressed q then picked_is_current (Poropyck.query (snd r))
    else Poropyck.query (snd r) = q) /\
   aligned dtw analytic_abs analytic_angle (snd r)).
Proof.
  cbv zeta.
  unfold Poropyck.onrelease, Poropyck.run_dtw, Poropyck.reads, modify,
    bind, gets, when, ret, aligned, indices.
  destruct (Signal.pressed (Poropyck.template p)) eqn:Tp;
    destruct (Signal.pressed (Poropyck.query p)) eqn:Qp; simpl.
  - split; [intros [H _]; discriminate|].
    unfold Poropyck.on_template.
    pose proof (signal_onrelease_returns e (Poropyck.template p)) as Ht.
    destruct (Signal.onrelease e (Poropyck.template p)) as [[[]|x] s1]; simpl in *;
      [|discriminate].
    rewrite Qp. unfold Poropyck.on_query. simpl.
    pose proof (signal_onrelease_returns e (Poropyck.query p)) as Hq.
    destruct (Signal.onrelease e (Poropyck.query p)) as [[[]|y] s2]; simpl in *;
      [|discriminate].
    intros _ _. destruct (Ht eq_refl) as [H1 H2]. destruct (Hq eq_refl) as [H3 H4].
    repeat split; assumption.
  - split; [intros [H _]; discriminate|].
    unfold Poropyck.on_template.
    pose proof (signal_onrelease_returns e (Poropyck.template p)) as Ht.
    destruct (Signal.onrelease e (Poropyck.template p)) as [[[]|x] s1]; simpl in *;
      [|discriminate].
    rewrite Qp. simpl.
    intros _ _. destruct (Ht eq_refl) as [H1 H2].
    repeat split; assumption.
  - split; [intros [_ H]; discriminate|].
    rewrite Qp. unfold Poropyck.on_query. simpl.
    pose proof (signal_onrelease_returns e (Poropyck.query p)) as Hq.
    destruct (Signal.onrelease e (Poropyck.query p)) as [[[]|y] s2]; simpl in *;
      [|discriminate].
    intros _ _. destruct (Hq eq_refl) as [H3 H4].
    repeat split; assumption.
  - split; [reflexivity|]. intros _ H. discriminate.
Qed.

(** A pick changes nothing of the two signals but their picks, and leaves
    the index arrays as they are, whether it appends or raises. *)
Theorem onpick_changes_picks_only (event : Poropyck.PickEvent F) (p : Poropyck.t F) :
  let p' := snd (Poropyck.onpick plot_picks event p) in
  but_picks (Poropyck.template p') = but_picks (Poropyck.template p) /\
  but_picks (Poropyck.query p') = but_picks (Poropyck.query p) /\
  indices p' = indices p.
Proof.
  unfold Poropyck.onpick, bind, lift, indices.
  destruct (np_index (Poropyck.artist_xdata event) (Poropyck.ind event)) as [xs|];
    [|repeat split; reflexivity].
  destruct (np_index (Poropyck.artist_ydata event) (Poropyck.ind event)) as [ys|];
    [|repeat split; reflexivity].
  destruct (np_argmin (Poropyck.pick_dists event xs ys)) as [k|];
    [|repeat split; reflexivity].
  destruct (np_item xs k) as [x|]; [|repeat split; reflexivity].
  destruct (np_item ys k) as [y|]; [|repeat split; reflexivity].
  repeat split; reflexivity.
Qed.

End Release.

(** ** The line of the summary plot, and picks on it *)

Section SummaryFacts.

Context {F : Type} {NumF : Num F} {RootF : Root F}.

Variable plot_picks : Poropyck.t F -> outcome unit.



(** An index of a path, counted from 1 and within the array, takes the
    entry just before it. *)
Lemma np_take_item_position (x : list F) (i : nat) :
  (1 <= i <= List.length x)%nat ->
  exists v, np_take_item x (Z.of_nat i - 1) = Returns v /\
            nth_error x (i - 1) = Some v.
Proof.
  intros H. unfold np_take_item, np_item.
  replace ((0 <=? Z.of_nat i - 1)%Z && (Z.of_nat i - 1 <? Z.of_nat (List.length x))%Z)
    with true by (symmetry; apply andb_true_iff; split;
                  [apply Z.leb_le | apply Z.ltb_lt]; lia).
  replace (Z.to_nat (Z.of_nat i - 1)) with (i - 1)%nat by lia.
  destruct (nth_error x (i - 1)) as [v|] eqn:E.
  - exists v. split; reflexivity.
  - apply nth_error_None in E. lia.
Qed.

Lemma np_take_positions (x : list F) (indices : list nat) :
  (forall i, In i indices -> (1 <= i <= List.length x)%nat) ->
  exists vs, np_take x (positions indices) = Returns vs /\
             Forall2 (fun i v => nth_error x (i - 1) = Some v) indices vs.
Proof.
  induction indices as [|i r IH]; intros H; simpl.
  - exists []. split; [reflexivity|constructor].
  - destruct (np_take_item_position x (H i (or_introl eq_refl))) as [v [Ev Hv]].
    destruct IH as [vs [Evs Hvs]]; [intros j Hj; apply H; right; exact Hj|].
    exists (v :: vs). rewrite Ev. simpl.
    fold (positions r). rewrite Evs. split; [reflexivity|].
    constructor; assumption.
Qed.

(** The line of the summary plot.  Before any alignment there is none:
    the index arrays are [None] and taking their length raises
    [TypeError].  With an alignment path whose indices, counted from 1, lie
    within the picked times, the line has one point for each step of the
    first index array: the picked time of the query at the step's first
    index against the picked time of the template at its second index. *)
Theorem summary_line_follows_the_path (p : Poropyck.t F) :
  (Poropyck.indices1 p = None -> summary_line p = Raises TypeError) /\
  forall i1 i2,
    Poropyck.indices1 p = Some i1 -> Poropyck.indices2 p = Some i2 ->
    (forall i, In i i1 ->
       (1 <= i <= List.length (Signal.picked_times (Poropyck.query p)))%nat) ->
    (forall i, In i (firstn (List.length i1) i2) ->
       (1 <= i <= List.length (Signal.picked_times (Poropyck.template p)))%nat) ->
    exists idxqo idxto,
      summary_line p = Returns (idxqo, idxto) /\
      Forall2 (fun i v =>
                 nth_error (Signal.picked_times (Poropyck.query p)) (i - 1) = Some v)
              i1 idxqo /\
      Forall2 (fun i v =>
                 nth_error (Signal.picked_times (Poropyck.template p)) (i - 1) = Some v)
              (firstn (List.length i1) i2) idxto.
Proof.
  unfold summary_line. split.
  - intros ->. reflexivity.
  - intros i1 i2 -> -> H1 H2.
    destruct (np_take_positions _ _ H2) as [ys [Ey Hy]].
    destruct (np_take_positions _ _ H1) as [xs [Ex Hx]].
    exists xs, ys. rewrite Ey, Ex. simpl. repeat split; assumption.
Qed.



End SummaryFacts.

